(** * node-vad: the streaming voice-activity segmentation engine

    A shallow embedding of [index.js] (classes [VAD] and [VADStream]) and the
    properties of its sample converters, frame chunker and speech state
    machine.

    JavaScript numbers are IEEE-754 binary64 values and are modelled by Rocq's
    primitive [float]; buffers are lists of bytes; buffer offsets and lengths,
    which JavaScript keeps as integer-valued numbers far below 2^53, are
    modelled by [nat].  The native binding ([bindings('vad')]) is an interface
    the development is parameterised over. *)

From Stdlib Require Import String.
From Stdlib Require Import ZArith List Bool Lia Floats PeanoNat.
From Stdlib.Strings Require Import Byte.
Import ListNotations.

Set Implicit Arguments.

(** ** JavaScript numbers *)

Module Num.

(** Conversion of an integer to the number that denotes it; exact below
    2^53, as buffer lengths and sample values are. *)
Definition of_Z (z : Z) : float :=
  match z with
  | Z0 => 0%float
  | Zpos _ => of_uint63 (Uint63.of_Z z)
  | Zneg p => (- of_uint63 (Uint63.of_Z (Zpos p)))%float
  end.

Definition of_nat (n : nat) : float := of_Z (Z.of_nat n).

(** [ToIntegerOrInfinity] restricted to what buffer offsets need: truncation
    towards zero, with NaN and the infinities sent to 0. *)
Definition trunc (x : float) : Z :=
  match Prim2SF x with
  | S754_finite s m e =>
      let a := match e with
               | Z0 => Zpos m
               | Zpos p => (Zpos m * 2 ^ Zpos p)%Z
               | Zneg p => (Zpos m / 2 ^ Zpos p)%Z
               end in
      if s then (- a)%Z else a
  | _ => 0%Z
  end.

Definition to_nat (x : float) : nat := Z.to_nat (trunc x).

(** [a > b] of JavaScript. *)
Definition gtb (a b : float) : bool := (b <? a)%float.
(** [a >= b] of JavaScript. *)
Definition geb (a b : float) : bool := (b <=? a)%float.

End Num.

(** ** JavaScript values, as far as [typeof] and [===] see them *)

Inductive jsval : Type :=
| JSUndefined
| JSNull
| JSBoolean (b : bool)
| JSNumber (x : float)
| JSString (s : string)
| JSObject.

(** [v === n] for a number literal [n]. *)
Definition strict_eq_num (v : jsval) (n : float) : bool :=
  match v with JSNumber x => PrimFloat.eqb x n | _ => false end.

(** A parameter or destructured property with a default value: the default is
    taken exactly when the value is [undefined]. *)
Definition with_default (v : jsval) (d : jsval) : jsval :=
  match v with JSUndefined => d | _ => v end.

Inductive js_error : Type :=
| Error (msg : string)
| TypeError (msg : string)
| RangeError (msg : string).

(** Synchronous code either returns or throws. *)
Inductive completion (A : Type) : Type :=
| Return (a : A)
| Throw (e : js_error).
Arguments Return {A} a.
Arguments Throw {A} e.

Definition bind {A B : Type} (c : completion A) (k : A -> completion B)
  : completion B :=
  match c with
  | Return a => k a
  | Throw e => Throw e
  end.

Declare Scope js_scope.
Delimit Scope js_scope with js.
Notation "x <- c ;; k" := (bind c (fun x => k))
  (at level 61, c at next level, right associativity) : js_scope.

(** ** Buffers *)

Definition Buffer := list byte.

Module Buf.

Definition alloc (n : nat) : Buffer := repeat x00 n.

(** [buf.slice(start, end)] for [0 <= start <= end]; [end] is clamped to the
    length. *)
Definition slice (buf : Buffer) (start end_ : nat) : Buffer :=
  firstn (end_ - start) (skipn start buf).

(** [buf.slice(start)]. *)
Definition slice_from (buf : Buffer) (start : nat) : Buffer :=
  skipn start buf.

Definition byte_to_Z (b : byte) : Z := Z.of_N (Byte.to_N b).

Definition byte_of_Z (z : Z) : byte :=
  match Byte.of_N (Z.to_N (z mod 256)) with
  | Some b => b
  | None => x00
  end.

(** The RangeError of a read or write outside the buffer.  Node words its
    message after the offset and the bounds; the message here only stands for
    it, and the properties speak of the class of the error alone. *)
Definition out_of_range : js_error :=
  RangeError "The value of offset is out of range"%string.

(** The [n] bytes at [offset], or a [RangeError] when they are not all
    inside the buffer. *)
Definition read_bytes (buf : Buffer) (offset n : nat)
  : completion (list byte) :=
  if offset + n <=? length buf
  then Return (firstn n (skipn offset buf))
  else Throw out_of_range.

Definition write_bytes (buf : Buffer) (offset : nat) (bs : list byte)
  : completion Buffer :=
  if offset + length bs <=? length buf
  then Return (firstn offset buf ++ bs ++ skipn (offset + length bs) buf)
  else Throw out_of_range.

(** Little-endian unsigned value of a byte string. *)
Fixpoint le_value (bs : list byte) : Z :=
  match bs with
  | [] => 0
  | b :: bs' => byte_to_Z b + 256 * le_value bs'
  end.

(** The [n] little-endian bytes of [z]. *)
Fixpoint le_bytes (n : nat) (z : Z) : list byte :=
  match n with
  | O => []
  | S n' => byte_of_Z z :: le_bytes n' (z / 256)
  end.

(** [buf.readInt16LE(offset)]. *)
Definition readInt16LE (buf : Buffer) (offset : nat) : completion Z :=
  (bs <- read_bytes buf offset 2 ;;
   let u := le_value bs in
   Return (if u <? 32768 then u else u - 65536)%Z)%js.

(** *** binary32 encoding, for [readFloatLE] and [writeFloatLE] *)

(** The number denoted by a binary32 bit pattern.  A number has one NaN
    here: the sign and payload of a NaN pattern are not kept, so the model
    stands for [readFloatLE] on the patterns that are not NaN. *)
Definition float_of_bits32 (bits : Z) : float :=
  let s := Z.testbit bits 31 in
  let e := Z.land (Z.shiftr bits 23) 255 in
  let m := Z.land bits 8388607 in
  if (e =? 255)%Z then
    if (m =? 0)%Z then (if s then neg_infinity else infinity) else nan
  else if (e =? 0)%Z then
    match m with
    | Zpos p => SF2Prim (S754_finite s p (-149))
    | _ => if s then neg_zero else zero
    end
  else
    match (m + 8388608)%Z with
    | Zpos p => SF2Prim (S754_finite s p (e - 150))
    | _ => nan
    end.

Definition join_bits32 (s : bool) (e m : Z) : Z :=
  ((if s then 2147483648 else 0) + e * 8388608 + m)%Z.

(** The binary32 bit pattern of a number, rounding to nearest, ties to
    even.  NaN is given the pattern 7fc00000; [writeFloatLE] may write
    another NaN pattern, so the model stands for it on numbers that are not
    NaN. *)
Definition bits32_of_float (x : float) : Z :=
  let narrow (sf : spec_float) :=
    match sf with
    | S754_zero s => join_bits32 s 0 0
    | S754_infinity s => join_bits32 s 255 0
    | S754_nan => join_bits32 false 255 4194304
    | S754_finite s m e =>
        if (Zpos m <? 8388608)%Z
        then join_bits32 s 0 (Zpos m)
        else join_bits32 s (e + 150) (Zpos m - 8388608)
    end in
  match Prim2SF x with
  | S754_finite s m e => narrow (binary_round 24 128 s m e)
  | sf => narrow sf
  end.

(** [buf.readFloatLE(offset)]. *)
Definition readFloatLE (buf : Buffer) (offset : nat) : completion float :=
  (bs <- read_bytes buf offset 4 ;;
   Return (float_of_bits32 (le_value bs)))%js.

(** [buf.writeFloatLE(value, offset)]; the buffer after the write. *)
Definition writeFloatLE (buf : Buffer) (value : float) (offset : nat)
  : completion Buffer :=
  write_bytes buf offset (le_bytes 4 (bits32_of_float value)).

End Buf.

(** ** Loops over a buffer *)

(** The values [i] of [for (let i = 0; i < stop; i += step)]. *)
Definition loop_indices (stop step : nat) : list nat :=
  map (fun k => k * step) (seq 0 ((stop + step - 1) / step)).

(** A loop body run over the indices in order; a throw leaves the loop. *)
Fixpoint foldM {A B : Type} (body : A -> B -> completion A) (l : list B)
  (a : A) : completion A :=
  match l with
  | [] => Return a
  | b :: l' => (a' <- body a b ;; foldM body l' a')%js
  end.

(** ** The native binding *)

(** [VAD.Event]: what the native classifier answers for a frame
    (ERROR = -1, SILENCE = 0, VOICE = 1, NOISE = 2). *)
Inductive Event : Type := ERROR | SILENCE | VOICE | NOISE.

(** [VAD.Mode]. *)
Module Mode.
Definition NORMAL : float := 0%float.
Definition LOW_BITRATE : float := 1%float.
Definition AGGRESSIVE : float := 2%float.
Definition VERY_AGGRESSIVE : float := 3%float.
End Mode.

(** The functions of [bindings('vad')] that [index.js] calls.  [vad_t] is the
    native instance kept in [this._vad]; the classifier keeps its own state in
    it from frame to frame. *)
Class Binding (vad_t : Type) : Type := {
  (** [vad_alloc(null)]: the size to allocate, [None] when [size.error]. *)
  vad_alloc_size : option nat;
  (** [vad_alloc(buffer)]: [None] when it answers false. *)
  vad_alloc : nat -> option vad_t;
  (** [vad_init(vad)]: [None] when it answers false. *)
  vad_init : vad_t -> option vad_t;
  vad_setmode : vad_t -> float -> vad_t;
  (** [vad_processAudioAsync(vad, floatBuffer, rate)], resolved. *)
  vad_processAudioAsync : vad_t -> Buffer -> float -> vad_t * Event
}.

(** The options object of [VAD.createStream]; an absent property reads as
    [JSUndefined]. *)
Module Options.
Record t : Type := make {
  mode : jsval;
  audioFrequency : jsval;
  debounceTime : jsval
}.
(** [createStream()] and [createStream({})]. *)
Definition empty : t := make JSUndefined JSUndefined JSUndefined.
End Options.

(** How a call that hands back a promise ends: the promise is fulfilled or
    rejected, or the call throws before there is a promise.  [Diverges] stands
    for a recursion that was cut off by its fuel. *)
Inductive settled (A : Type) : Type :=
| Fulfilled (a : A)
| Rejected (e : js_error)
| Thrown (e : js_error)
| Diverges.
Arguments Fulfilled {A} a.
Arguments Rejected {A} e.
Arguments Thrown {A} e.
Arguments Diverges {A}.

(** ** class VAD *)

Section VAD.

Context {vad_t : Type} {binding : Binding vad_t}.

Record VAD : Type := { _vad : vad_t }.

(** [new VAD(mode)]. *)
Definition VAD_new (mode : jsval) : completion VAD :=
  match vad_alloc_size with
  | None => Throw (Error "Failed to get VAD size")
  | Some size =>
      match vad_alloc size with
      | None => Throw (Error "Failed to allocate VAD")
      | Some v =>
          match vad_init v with
          | None => Throw (Error "Failed to initialise VAD")
          | Some v =>
              match mode with
              | JSNumber m =>
                  if negb (Num.geb m Mode.NORMAL
                           && PrimFloat.leb m Mode.VERY_AGGRESSIVE)
                  then Throw (Error "Invalid mode")
                  else Return {| _vad := vad_setmode v m |}
              | _ => Throw (Error "Invalid mode")
              end
          end
      end
  end.

(** [VAD.from16toFloatBuffer(buffer)]. *)
Definition from16toFloatBuffer (buffer : Buffer) : completion Buffer :=
  foldM (fun floatData i =>
           intValue <- Buf.readInt16LE buffer i ;;
           let floatValue := (Num.of_Z intValue / 32768)%float in
           Buf.writeFloatLE floatData floatValue (i * 2))%js
        (loop_indices (length buffer) 2)
        (Buf.alloc (length buffer * 2)).

(** [VAD.from32toFloatBuffer(buffer)]. *)
Definition from32toFloatBuffer (buffer : Buffer) : completion Buffer :=
  foldM (fun floatData i =>
           floatValue <- Buf.readFloatLE buffer i ;;
           Buf.writeFloatLE floatData floatValue (i * 4))%js
        (loop_indices (length buffer) 4)
        (Buf.alloc (length buffer * 4)).

(** [vad.processAudio(buffer, rate, bits = 16)]: the native state after the
    call and the event the promise resolves to; [Throw] when a converter
    throws. *)
Definition processAudio (this : VAD) (buffer : Buffer) (rate : float)
  (bits : jsval) : completion (VAD * Event) :=
  let bits := with_default bits (JSNumber 16) in
  let call floatBuffer :=
    let '(v, event) := vad_processAudioAsync (_vad this) floatBuffer rate in
    ({| _vad := v |}, event) in
  if strict_eq_num bits 32
  then (floatBuffer <- from32toFloatBuffer buffer ;;
        Return (call floatBuffer))%js
  else (floatBuffer <- from16toFloatBuffer buffer ;;
        Return (call floatBuffer))%js.


End VAD.

(** ** class VADStream *)

(** The object handed to [this.push]. *)
Record Speech : Type := {
  speech_state : bool;
  speech_start : bool;
  speech_end : bool;
  speech_startTime : float;
  speech_duration : float
}.

Record FrameEvent : Type := {
  time : float;
  audioData : Buffer;
  speech : Speech
}.

(** The start time of the segment that is open after the events [evs], read
    off the start and end flags: [None] when no segment is open. *)
Definition open_segment (evs : list FrameEvent) : option float :=
  fold_left (fun open ev =>
               if speech_start (speech ev) then Some (time ev)
               else if speech_end (speech ev) then None
               else open)
            evs None.

Section VADStream.

Context {vad_t : Type} {binding : Binding vad_t}.

Record VADStream : Type := {
  vad : VAD (vad_t := vad_t);
  audioFrequency : float;
  debounceTime : float;
  timeMultiplier : float;
  chunkLength : float;
  byteCount : nat;
  state : bool;
  startTime : float;
  lastSpeech : float;
  (** [None] is [null]. *)
  buffer : option Buffer
}.

Definition set_vad (s : VADStream) (v : VAD) : VADStream :=
  {| vad := v; audioFrequency := audioFrequency s;
     debounceTime := debounceTime s; timeMultiplier := timeMultiplier s;
     chunkLength := chunkLength s; byteCount := byteCount s;
     state := state s; startTime := startTime s;
     lastSpeech := lastSpeech s; buffer := buffer s |}.

Definition set_byteCount (s : VADStream) (n : nat) : VADStream :=
  {| vad := vad s; audioFrequency := audioFrequency s;
     debounceTime := debounceTime s; timeMultiplier := timeMultiplier s;
     chunkLength := chunkLength s; byteCount := n;
     state := state s; startTime := startTime s;
     lastSpeech := lastSpeech s; buffer := buffer s |}.

Definition set_state (s : VADStream) (b : bool) : VADStream :=
  {| vad := vad s; audioFrequency := audioFrequency s;
     debounceTime := debounceTime s; timeMultiplier := timeMultiplier s;
     chunkLength := chunkLength s; byteCount := byteCount s;
     state := b; startTime := startTime s;
     lastSpeech := lastSpeech s; buffer := buffer s |}.

Definition set_startTime (s : VADStream) (t : float) : VADStream :=
  {| vad := vad s; audioFrequency := audioFrequency s;
     debounceTime := debounceTime s; timeMultiplier := timeMultiplier s;
     chunkLength := chunkLength s; byteCount := byteCount s;
     state := state s; startTime := t;
     lastSpeech := lastSpeech s; buffer := buffer s |}.

Definition set_lastSpeech (s : VADStream) (t : float) : VADStream :=
  {| vad := vad s; audioFrequency := audioFrequency s;
     debounceTime := debounceTime s; timeMultiplier := timeMultiplier s;
     chunkLength := chunkLength s; byteCount := byteCount s;
     state := state s; startTime := startTime s;
     lastSpeech := t; buffer := buffer s |}.

Definition set_buffer (s : VADStream) (b : option Buffer) : VADStream :=
  {| vad := vad s; audioFrequency := audioFrequency s;
     debounceTime := debounceTime s; timeMultiplier := timeMultiplier s;
     chunkLength := chunkLength s; byteCount := byteCount s;
     state := state s; startTime := startTime s;
     lastSpeech := lastSpeech s; buffer := b |}.

(** [new VADStream(options)], which is [VAD.createStream(options)]. *)
Definition VADStream_new (options : Options.t) : completion VADStream :=
  let mode := with_default (Options.mode options) (JSNumber Mode.NORMAL) in
  let audioFrequency :=
    with_default (Options.audioFrequency options) (JSNumber 16000) in
  let debounceTime :=
    with_default (Options.debounceTime options) (JSNumber 1000) in
  (vad <- VAD_new mode ;;
   match audioFrequency with
   | JSNumber audioFrequency =>
       if negb (PrimFloat.eqb audioFrequency 8000
                || PrimFloat.eqb audioFrequency 16000
                || PrimFloat.eqb audioFrequency 32000
                || PrimFloat.eqb audioFrequency 48000)
       then Throw (Error "audioFrequency must be 8000, 16000, 32000 or 48000")
       else
         match debounceTime with
         | JSNumber debounceTime =>
             if PrimFloat.ltb debounceTime 0
             then Throw (Error "debounceTime must be greater than 0")
             else
               let timeMultiplier := (1000 / audioFrequency / 2)%float in
               Return {| vad := vad;
                         audioFrequency := audioFrequency;
                         debounceTime := debounceTime;
                         timeMultiplier := timeMultiplier;
                         chunkLength := (60 / timeMultiplier)%float;
                         byteCount := 0;
                         state := false;
                         startTime := 0;
                         lastSpeech := 0;
                         buffer := Some (Buf.alloc 0) |}
         | _ => Throw (TypeError "debounceTime must be a number")
         end
   | _ => Throw (TypeError "audioFrequency must be a number")
   end)%js.

Definition createStream : Options.t -> completion VADStream := VADStream_new.

(** What a method of the stream leaves behind: the stream afterwards, the
    objects it pushed downstream, in order, and how its promise ended. *)
Record Outcome (A : Type) : Type := {
  final : VADStream;
  pushed : list FrameEvent;
  result : settled A
}.

(** [this._processAudio(chunk)]. *)
Definition _processAudio (this : VADStream) (chunk : Buffer)
  : Outcome unit :=
  let time := (timeMultiplier this * Num.of_nat (byteCount this))%float in
  let this := set_byteCount this (byteCount this + length chunk) in
  match processAudio (vad this) chunk (audioFrequency this) JSUndefined with
  | Throw e => {| final := this; pushed := []; result := Thrown e |}
  | Return (v, event) =>
      let this := set_vad this v in
      match event with
      | ERROR =>
          {| final := this; pushed := [];
             result := Rejected (Error "Error in VAD") |}
      | _ =>
          let start := false in
          let end_ := false in
          let startTime_ := startTime this in
          let duration :=
            if state this then (time - startTime this)%float else 0%float in
          let '(this, start, end_, startTime_) :=
            match event with
            | VOICE =>
                let '(this, start, end_, startTime_) :=
                  if negb (state this)
                  then (set_startTime (set_state this true) time,
                        true, false, time)
                  else (this, start, end_, startTime_) in
                (set_lastSpeech this time, start, end_, startTime_)
            | _ =>
                if state this
                   && Num.gtb (time - lastSpeech this)%float
                              (debounceTime this)
                then (set_startTime (set_state this false) 0%float,
                      false, true, startTime_)
                else (this, start, end_, startTime_)
            end in
          {| final := this;
             pushed := [ {| time := time;
                            audioData := chunk;
                            speech := {| speech_state := state this;
                                         speech_start := start;
                                         speech_end := end_;
                                         speech_startTime := startTime_;
                                         speech_duration := duration |} |} ];
             result := Fulfilled tt |}
      end
  end.

(** [this.chunkLength] as a buffer offset. *)
Definition chunkLengthBytes (this : VADStream) : nat :=
  Num.to_nat (chunkLength this).

(** [this._chunkTransform(chunk, start)].  The recursion is on [start], which
    grows by [chunkLength]; [fuel] bounds the number of frames. *)
Fixpoint _chunkTransform (fuel : nat) (this : VADStream) (chunk : Buffer)
  (start : nat) : Outcome Buffer :=
  let end_ := start + chunkLengthBytes this in
  if end_ <? length chunk then
    let o := _processAudio this (Buf.slice chunk start end_) in
    match result o with
    | Fulfilled _ =>
        match fuel with
        | O => {| final := final o; pushed := pushed o; result := Diverges |}
        | S fuel' =>
            let o' := _chunkTransform fuel' (final o) chunk end_ in
            {| final := final o';
               pushed := pushed o ++ pushed o';
               result := match result o' with
                         | Thrown e => Rejected e
                         | r => r
                         end |}
        end
    | Rejected e =>
        {| final := final o; pushed := pushed o; result := Rejected e |}
    | Thrown e =>
        {| final := final o; pushed := pushed o; result := Thrown e |}
    | Diverges =>
        {| final := final o; pushed := pushed o; result := Diverges |}
    end
  else
    {| final := this; pushed := [];
       result := Fulfilled (Buf.slice_from chunk start) |}.

(** [this._transform(chunk, encoding, callback)]: [Fulfilled] is
    [callback()], [Rejected e] is [callback(e)]. *)
Definition _transform (this : VADStream) (chunk : Buffer) : Outcome unit :=
  match buffer this with
  | None =>
      (* Buffer.concat([null, chunk]) *)
      {| final := this; pushed := [];
         result := Thrown (TypeError "list[0] must be a Buffer") |}
  | Some b =>
      let all := b ++ chunk in
      let o := _chunkTransform (length all) this all 0 in
      match result o with
      | Fulfilled remaining =>
          {| final := set_buffer (final o) (Some remaining);
             pushed := pushed o; result := Fulfilled tt |}
      | Rejected e =>
          {| final := set_buffer (final o) None;
             pushed := pushed o; result := Rejected e |}
      | Thrown e =>
          {| final := final o; pushed := pushed o; result := Thrown e |}
      | Diverges =>
          {| final := final o; pushed := pushed o; result := Diverges |}
      end
  end.

(** The stream fed a sequence of writes: [_transform] once per write, in
    order. *)
Fixpoint writes (this : VADStream) (chunks : list Buffer)
  : VADStream * list FrameEvent :=
  match chunks with
  | [] => (this, [])
  | chunk :: chunks' =>
      let o := _transform this chunk in
      let '(this', events) := writes (final o) chunks' in
      (this', pushed o ++ events)
  end.

(** *** The two halves of [_chunkTransform]

    [_chunkTransform] interleaves cutting frames off the buffer with
    processing them.  Taken apart: the frames it cuts, and what it does with
    a list of frames. *)

(** The frames of [chunkLength] bytes cut off [rest] while more than one
    frame's worth of bytes is left, and what is left. *)
Fixpoint split_aux (fuel L : nat) (rest : Buffer) : list Buffer * Buffer :=
  if L <? length rest then
    match fuel with
    | O => ([], rest)
    | S fuel' =>
        let '(frames, remaining) := split_aux fuel' L (skipn L rest) in
        (firstn L rest :: frames, remaining)
    end
  else ([], rest).

Definition split_frames (L : nat) (all : Buffer) : list Buffer * Buffer :=
  split_aux (length all) L all.

(** [_processAudio] on the frames in order, up to the first that does not
    fulfil; as in [_chunkTransform], a throw after the first frame happens
    inside a [then] and rejects. *)
Fixpoint feed (this : VADStream) (frames : list Buffer) : Outcome unit :=
  match frames with
  | [] => {| final := this; pushed := []; result := Fulfilled tt |}
  | frame :: frames' =>
      let o := _processAudio this frame in
      match result o with
      | Fulfilled _ =>
          let o' := feed (final o) frames' in
          {| final := final o';
             pushed := pushed o ++ pushed o';
             result := match result o' with
                       | Thrown e => Rejected e
                       | r => r
                       end |}
      | _ => o
      end
  end.

(** The event the classifier answers for [frame] in the stream's current
    state, when the converter does not throw. *)
Definition classification (this : VADStream) (frame : Buffer)
  : option Event :=
  match processAudio (vad this) frame (audioFrequency this) JSUndefined with
  | Return (_, event) => Some event
  | Throw _ => None
  end.

(** *** Notions the properties are stated with *)

(** The frame's time, as [_processAudio] computes it on entry. *)
Definition frame_time (this : VADStream) : float :=
  (timeMultiplier this * Num.of_nat (byteCount this))%float.

(** How the promise of [_chunkTransform] ends, from how the frames went and
    what the chunker left. *)
Definition finish (o : Outcome unit) (remaining : Buffer)
  : Outcome Buffer :=
  {| final := final o;
     pushed := pushed o;
     result := match result o with
               | Fulfilled _ => Fulfilled remaining
               | Rejected e => Rejected e
               | Thrown e => Thrown e
               | Diverges => Diverges
               end |}.

(** The frame length is positive and a whole number of samples. *)
Definition frames_ok (this : VADStream) : Prop :=
  0 < chunkLengthBytes this /\ Nat.even (chunkLengthBytes this) = true.

(** The stream agrees with the events [evs] it pushed so far on whether a
    segment is open and when it started. *)
Definition tracks (this : VADStream) (evs : list FrameEvent) : Prop :=
  match open_segment evs with
  | Some t => state this = true /\ startTime this = t
  | None => state this = false /\ startTime this = 0%float
  end.

(** The native side allocates and initialises. *)
Definition native_ready : Prop :=
  exists size v v',
    vad_alloc_size = Some size /\ vad_alloc size = Some v
    /\ vad_init v = Some v'.

End VADStream.

(** ** What the converters read and write *)

(** The [k]-th 16-bit sample of a buffer, as [readInt16LE] reads it. *)
Definition sample16 (buffer : Buffer) (k : nat) : Z :=
  let u := Buf.le_value (firstn 2 (skipn (k * 2) buffer)) in
  if (u <? 32768)%Z then u else (u - 65536)%Z.

(** The [k]-th binary32 value of a buffer, as [readFloatLE] reads it. *)
Definition float32_at (buffer : Buffer) (k : nat) : float :=
  Buf.float_of_bits32 (Buf.le_value (firstn 4 (skipn (k * 4) buffer))).

(** The four bytes [writeFloatLE] writes for a number. *)
Definition float32_bytes (x : float) : list byte :=
  Buf.le_bytes 4 (Buf.bits32_of_float x).

(** Whether the binary32 bytes of [z / 32768] read back as [z / 32768], for
    the [n] integers from [z] on. *)
Fixpoint exact_from (n : nat) (z : Z) : bool :=
  match n with
  | O => true
  | S n' =>
      PrimFloat.Leibniz.eqb
        (Buf.float_of_bits32
           (Buf.le_value (float32_bytes (Num.of_Z z / 32768)%float)))
        (Num.of_Z z / 32768)%float
      && exact_from n' (z + 1)%Z
  end.

(** ** The calls a stream makes to the classifier *)

(** [vad.processAudio(frame, rate)] on the frames in order, each call leaving
    the native state to the next. *)
Definition classify_frames {vad_t : Type} {binding : Binding vad_t}
  (v : VAD) (rate : float) (frames : list Buffer) : VAD (vad_t := vad_t) :=
  fold_left (fun v frame =>
               match processAudio v frame rate JSUndefined with
               | Return (v', _) => v'
               | Throw _ => v
               end)
            frames v.

(** ** Configurations *)

(** The configurations the specification calls valid: a mode of [VAD.Mode], one
    of the four sample rates, a debounce time that is a number and not
    negative.  An option left out takes its default. *)
Module Config.

Definition mode_listed (v : jsval) : Prop :=
  v = JSUndefined
  \/ v = JSNumber Mode.NORMAL \/ v = JSNumber Mode.LOW_BITRATE
  \/ v = JSNumber Mode.AGGRESSIVE \/ v = JSNumber Mode.VERY_AGGRESSIVE.

Definition rate_listed (v : jsval) : Prop :=
  v = JSUndefined
  \/ v = JSNumber 8000 \/ v = JSNumber 16000
  \/ v = JSNumber 32000 \/ v = JSNumber 48000.

Definition debounce_listed (v : jsval) : Prop :=
  v = JSUndefined
  \/ exists d, v = JSNumber d /\ PrimFloat.ltb d 0 = false.

Definition valid (o : Options.t) : Prop :=
  mode_listed (Options.mode o)
  /\ rate_listed (Options.audioFrequency o)
  /\ debounce_listed (Options.debounceTime o).

(** What the constructor lets through: the mode only has to be a number in
    the range from NORMAL to VERY_AGGRESSIVE. *)
Definition mode_in_range (v : jsval) : Prop :=
  v = JSUndefined
  \/ exists m, v = JSNumber m
               /\ PrimFloat.leb Mode.NORMAL m = true
               /\ PrimFloat.leb m Mode.VERY_AGGRESSIVE = true.

Definition accepted (o : Options.t) : Prop :=
  mode_in_range (Options.mode o)
  /\ rate_listed (Options.audioFrequency o)
  /\ debounce_listed (Options.debounceTime o).

End Config.

(** ** A binding to run the code with

    A native side that always allocates, and whose classifier reads the first
    sample of the frame it is handed: 0.5 is voice, 0.25 is noise, -0.5 is an
    error, anything else is silence.  Its state counts the frames it saw. *)
Module Demo.

Definition classify (floatBuffer : Buffer) : Event :=
  match floatBuffer with
  | x00 :: x00 :: x00 :: x3f :: _ => VOICE
  | x00 :: x00 :: x80 :: x3e :: _ => NOISE
  | x00 :: x00 :: x00 :: xbf :: _ => ERROR
  | _ => SILENCE
  end.

#[export] Instance binding : Binding nat := {
  vad_alloc_size := Some 736;
  vad_alloc := fun _ => Some 0;
  vad_init := fun v => Some v;
  vad_setmode := fun v _ => v;
  vad_processAudioAsync := fun v floatBuffer _ => (S v, classify floatBuffer)
}.

(** [n] bytes of 16-bit samples, all equal to the sample [lo, hi]. *)
Fixpoint samples (lo hi : byte) (n : nat) : Buffer :=
  match n with
  | S (S n') => lo :: hi :: samples lo hi n'
  | _ => []
  end.

Definition voice (n : nat) : Buffer := samples x00 x40 n.
Definition noise (n : nat) : Buffer := samples x00 x20 n.
Definition silence (n : nat) : Buffer := samples x00 x00 n.
Definition faulty (n : nat) : Buffer := samples x00 xc0 n.

(** The stream [new VADStream] builds for [options8000 debounce]. *)
Definition fresh (debounce : float) : VADStream :=
  {| vad := {| _vad := 0 |};
     audioFrequency := 8000;
     debounceTime := debounce;
     timeMultiplier := 0.0625;
     chunkLength := 960;
     byteCount := 0;
     state := false;
     startTime := 0;
     lastSpeech := 0;
     buffer := Some [] |}.

(** An event, by its fields. *)
Definition event (t : float) (audio : Buffer)
  (speaking start end_ : bool) (startTime duration : float) : FrameEvent :=
  {| time := t;
     audioData := audio;
     speech := {| speech_state := speaking;
                  speech_start := start;
                  speech_end := end_;
                  speech_startTime := startTime;
                  speech_duration := duration |} |}.

(** The events of the writes [chunks] to a fresh stream. *)
Definition events (options : Options.t) (chunks : list Buffer)
  : list FrameEvent :=
  match VADStream_new options with
  | Return s => snd (writes s chunks)
  | Throw _ => []
  end.

(** A stream at 8000 Hz (frames of 960 bytes) with the given debounce time. *)
Definition options8000 (debounce : float) : Options.t :=
  Options.make JSUndefined (JSNumber 8000) (JSNumber debounce).

(** The events of the writes [chunks] to a fresh stream, and what its buffer
    holds after them. *)
Definition run (options : Options.t) (chunks : list Buffer)
  : option (list FrameEvent * option Buffer) :=
  match VADStream_new options with
  | Return s => let '(s', evs) := writes s chunks in Some (evs, buffer s')
  | Throw _ => None
  end.

End Demo.

(** * Properties *)

(** ** Numbers *)

Module NumFacts.

Lemma Prim2SF_infinity : Prim2SF infinity = S754_infinity false.
Proof. reflexivity. Qed.

Lemma Prim2SF_zero : Prim2SF 0%float = S754_zero false.
Proof. reflexivity. Qed.

(** [===] on numbers is identity, except that it cannot tell the two zeros
    apart. *)
Lemma eqb_true_eq (x y : float) :
  PrimFloat.eqb x y = true -> PrimFloat.is_zero y = false -> x = y.
Proof.
  unfold is_zero. change zero with 0%float.
  rewrite !FloatAxioms.eqb_spec, Prim2SF_zero.
  intros H Hz. apply Prim2SF_inj.
  destruct (Prim2SF x) as [sx|sx| |sx mx ex], (Prim2SF y) as [sy|sy| |sy my ey];
    cbn in H, Hz; try discriminate;
    try (destruct sx; discriminate); try (destruct sy; discriminate).
  - destruct sx, sy; try discriminate; reflexivity.
  - unfold SFeqb, SFcompare in H.
    destruct sx, sy; try discriminate;
      destruct (Z.compare_spec ex ey); try discriminate;
      destruct (Pos.compare_cont Eq mx my) eqn:C; try discriminate;
      apply Pos.compare_eq in C; subst; reflexivity.
Qed.

(** A finite number minus itself is [+0]. *)
Lemma neq_by_eqb (x y : float) :
  PrimFloat.eqb x y = false -> PrimFloat.eqb y y = true -> x <> y.
Proof. intros H1 H2 E. subst. congruence. Qed.

Lemma sub_diag (x : float) : is_finite x = true -> (x - x)%float = 0%float.
Proof.
  unfold is_finite, is_nan, is_infinity.
  rewrite !FloatAxioms.eqb_spec, abs_spec, Prim2SF_infinity.
  intros H. apply Prim2SF_inj. rewrite sub_spec, Prim2SF_zero.
  destruct (Prim2SF x) as [s|s| |s m e].
  - destruct s; reflexivity.
  - destruct s; discriminate.
  - discriminate.
  - unfold SF64sub, SFsub. cbv zeta. rewrite Z.sub_diag. reflexivity.
Qed.

End NumFacts.

(** ** Loops and buffer accesses *)

Section LoopFacts.

Context {A B : Type}.

(** A loop whose body cannot throw while the invariant holds runs to its
    end and keeps the invariant. *)
Lemma foldM_invariant (P : A -> Prop) (body : A -> B -> completion A)
  (l : list B) :
  (forall a b, In b l -> P a -> exists a', body a b = Return a' /\ P a') ->
  forall a, P a -> exists a', foldM body l a = Return a' /\ P a'.
Proof.
  induction l as [|b l IH]; intros Hbody a Ha; simpl.
  - eauto.
  - destruct (Hbody a b (or_introl eq_refl) Ha) as (a' & -> & Ha').
    simpl. apply IH; [|assumption].
    intros a0 b0 Hin. apply Hbody. now right.
Qed.

End LoopFacts.

Lemma loop_indices_In (stop step i : nat) :
  0 < step -> In i (loop_indices stop step) ->
  i < stop /\ exists k, i = k * step.
Proof.
  intros Hstep Hin. unfold loop_indices in Hin.
  apply in_map_iff in Hin. destruct Hin as (k & <- & Hk).
  apply in_seq in Hk. split; [|now exists k].
  pose proof (Nat.Div0.mul_div_le (stop + step - 1) step).
  nia.
Qed.

Module BufFacts.

Lemma alloc_length (n : nat) : length (Buf.alloc n) = n.
Proof. apply repeat_length. Qed.

Lemma le_bytes_length (n : nat) (z : Z) : length (Buf.le_bytes n z) = n.
Proof. revert z. induction n; intros; simpl; auto. Qed.

Lemma write_bytes_ok (buf : Buffer) (offset : nat) (bs : list byte) :
  offset + length bs <= length buf ->
  exists buf', Buf.write_bytes buf offset bs = Return buf'
               /\ length buf' = length buf.
Proof.
  intros H. unfold Buf.write_bytes.
  apply Nat.leb_le in H as Hb. rewrite Hb. eexists. split; [reflexivity|].
  rewrite !length_app, length_firstn, length_skipn. lia.
Qed.

Lemma writeFloatLE_ok (buf : Buffer) (value : float) (offset : nat) :
  offset + 4 <= length buf ->
  exists buf', Buf.writeFloatLE buf value offset = Return buf'
               /\ length buf' = length buf.
Proof.
  intros H. unfold Buf.writeFloatLE. apply write_bytes_ok.
  now rewrite le_bytes_length.
Qed.

Lemma read_bytes_ok (buf : Buffer) (offset n : nat) :
  offset + n <= length buf ->
  Buf.read_bytes buf offset n = Return (firstn n (skipn offset buf)).
Proof.
  intros H. unfold Buf.read_bytes. apply Nat.leb_le in H. now rewrite H.
Qed.

End BufFacts.

(** ** The sample converters *)

Section ConverterFacts.

Context {vad_t : Type} {binding : Binding vad_t}.

(** On whole 16-bit samples the converter does not throw, and it answers one
    binary32 value per sample. *)
Lemma from16toFloatBuffer_even (buffer : Buffer) :
  Nat.even (length buffer) = true ->
  exists floatData,
    from16toFloatBuffer buffer = Return floatData
    /\ length floatData = length buffer * 2.
Proof.
  intros Heven. unfold from16toFloatBuffer.
  apply foldM_invariant
    with (P := fun fd : Buffer => length fd = length buffer * 2);
    [|apply BufFacts.alloc_length].
  intros fd i Hin Hfd.
  apply loop_indices_In in Hin as (Hlt & k & ->); [|lia].
  apply Nat.even_spec in Heven as (m & Hm).
  unfold Buf.readInt16LE.
  rewrite BufFacts.read_bytes_ok by lia. simpl.
  destruct (BufFacts.writeFloatLE_ok fd
              (Num.of_Z
                 (let u := Buf.le_value (firstn 2 (skipn (k * 2) buffer)) in
                  if (u <? 32768)%Z then u else (u - 65536)%Z) / 32768)%float
              (k * 2 * 2)) as (fd' & Hw & Hl); [lia|].
  exists fd'. split; [exact Hw|congruence].
Qed.

(** The 32-bit converter allocates four bytes per input byte, whatever the
    input holds. *)
Lemma from32toFloatBuffer_length (buffer : Buffer) :
  length buffer mod 4 = 0 ->
  exists floatData,
    from32toFloatBuffer buffer = Return floatData
    /\ length floatData = length buffer * 4.
Proof.
  intros Hmod. unfold from32toFloatBuffer.
  apply foldM_invariant
    with (P := fun fd : Buffer => length fd = length buffer * 4);
    [|apply BufFacts.alloc_length].
  intros fd i Hin Hfd.
  apply loop_indices_In in Hin as (Hlt & k & ->); [|lia].
  apply Nat.Div0.div_exact in Hmod.
  unfold Buf.readFloatLE.
  rewrite BufFacts.read_bytes_ok by lia. simpl.
  destruct (BufFacts.writeFloatLE_ok fd
              (Buf.float_of_bits32
                 (Buf.le_value (firstn 4 (skipn (k * 4) buffer))))
              (k * 4 * 4)) as (fd' & Hw & Hl); [lia|].
  exists fd'. split; [exact Hw|congruence].
Qed.

End ConverterFacts.

(** ** One frame through the speech state machine *)

(** Case analysis on one run of [_processAudio]: whether the converter
    throws, the event, the speaking flag and the debounce test. *)
Ltac stream_simpl :=
  cbn [final pushed result vad audioFrequency debounceTime timeMultiplier
       chunkLength byteCount state startTime lastSpeech buffer set_vad
       set_byteCount set_state set_startTime set_lastSpeech set_buffer
       negb andb] in *.

Ltac frame_cases s chunk :=
  unfold _processAudio, classification;
  let v0 := fresh "v" in
  let af := fresh "freq" in
  let st := fresh "speaking" in
  destruct s as [v0 af ? ? ? ? st ? ? ?];
  stream_simpl;
  destruct (processAudio v0 chunk af JSUndefined) as [[? []]|?];
  stream_simpl;
  try (destruct st; stream_simpl; try destruct (Num.gtb _ _); stream_simpl).

Section FrameFacts.

Context {vad_t : Type} {binding : Binding vad_t}.

Implicit Types (s : @VADStream vad_t) (chunk frame : Buffer) (ev : FrameEvent).

Lemma _processAudio_config s chunk :
  let s' := final (_processAudio s chunk) in
  chunkLength s' = chunkLength s
  /\ audioFrequency s' = audioFrequency s
  /\ debounceTime s' = debounceTime s
  /\ timeMultiplier s' = timeMultiplier s
  /\ buffer s' = buffer s.
Proof. frame_cases s chunk; auto. Qed.

Lemma _processAudio_chunkLengthBytes s chunk :
  chunkLengthBytes (final (_processAudio s chunk)) = chunkLengthBytes s.
Proof.
  unfold chunkLengthBytes.
  now rewrite (proj1 (_processAudio_config s chunk)).
Qed.

(** A fulfilled call pushed exactly one event, which carries the frame and
    its time; any other call pushed nothing. *)
Lemma _processAudio_pushed s chunk :
  match result (_processAudio s chunk) with
  | Fulfilled _ =>
      exists sp, pushed (_processAudio s chunk)
                 = [ {| time := frame_time s; audioData := chunk;
                        speech := sp |} ]
  | Rejected _ | Thrown _ => pushed (_processAudio s chunk) = []
  | Diverges => False
  end.
Proof. unfold frame_time. frame_cases s chunk; eauto. Qed.

(** An ERROR event pushes nothing and rejects. *)
Lemma _processAudio_error s chunk :
  classification s chunk = Some ERROR ->
  pushed (_processAudio s chunk) = []
  /\ result (_processAudio s chunk) = Rejected (Error "Error in VAD").
Proof.
  unfold classification, _processAudio. cbn [vad audioFrequency set_byteCount].
  destruct (processAudio (vad s) chunk (audioFrequency s) JSUndefined)
    as [[v []]|e]; try discriminate.
  intros _. split; reflexivity.
Qed.

End FrameFacts.

Section SpeechMachine.

Context {vad_t : Type} {binding : Binding vad_t}.

Implicit Types (s : @VADStream vad_t) (chunk : Buffer) (ev : FrameEvent).

(** Everything [_processAudio] puts in an event, by the state it ran in. *)
Lemma _processAudio_event s chunk ev :
  In ev (pushed (_processAudio s chunk)) ->
  let s' := final (_processAudio s chunk) in
  let sp := speech ev in
  time ev = frame_time s
  /\ audioData ev = chunk
  /\ speech_state sp = state s'
  /\ speech_duration sp
     = (if state s then (time ev - startTime s)%float else 0%float)
  /\ (speech_start sp = true ->
      state s = false /\ state s' = true /\ speech_end sp = false
      /\ speech_startTime sp = time ev /\ startTime s' = time ev)
  /\ (speech_end sp = true ->
      state s = true /\ state s' = false /\ speech_start sp = false
      /\ speech_startTime sp = startTime s /\ startTime s' = 0%float)
  /\ (speech_start sp = false -> speech_end sp = false ->
      state s' = state s /\ startTime s' = startTime s
      /\ speech_startTime sp = startTime s).
Proof.
  unfold frame_time. frame_cases s chunk;
    cbn [In]; intros H; try (exfalso; exact H);
    destruct H as [<-|[]]; cbn [time audioData speech speech_state speech_start
                         speech_end speech_startTime speech_duration];
    repeat split; intros; try discriminate; reflexivity.
Qed.

End SpeechMachine.

(** ** The frames cut off a buffer *)

Section SplitFacts.

Variable L : nat.
Hypothesis L_pos : 0 < L.

(** Fuel beyond the length of the buffer changes nothing. *)
Lemma split_aux_fuel (fuel1 fuel2 : nat) (rest : Buffer) :
  length rest <= fuel1 -> length rest <= fuel2 ->
  split_aux fuel1 L rest = split_aux fuel2 L rest.
Proof.
  revert fuel2 rest.
  induction fuel1 as [|fuel1 IH]; intros fuel2 rest H1 H2.
  - destruct rest; [|simpl in H1; lia].
    destruct fuel2; simpl; destruct L; reflexivity.
  - destruct fuel2 as [|fuel2].
    + destruct rest; [|simpl in H2; lia].
      simpl; destruct L; reflexivity.
    + simpl. destruct (L <? length rest) eqn:E; [|reflexivity].
      apply Nat.ltb_lt in E.
      rewrite (IH fuel2) by (rewrite length_skipn; lia).
      reflexivity.
Qed.

Lemma split_frames_aux (fuel : nat) (all : Buffer) :
  length all <= fuel -> split_aux fuel L all = split_frames L all.
Proof. intros H. unfold split_frames. now apply split_aux_fuel. Qed.

(** Up to one frame's worth of bytes is kept whole. *)
Lemma split_frames_small (all : Buffer) :
  length all <= L -> split_frames L all = ([], all).
Proof.
  intros H. unfold split_frames.
  destruct (length all) eqn:E; simpl; rewrite E;
    (destruct (L <? _) eqn:E'; [apply Nat.ltb_lt in E'; lia|reflexivity]).
Qed.

(** With more than a frame's worth of bytes, the first frame goes. *)
Lemma split_frames_step (all : Buffer) :
  L < length all ->
  split_frames L all
  = (firstn L all :: fst (split_frames L (skipn L all)),
     snd (split_frames L (skipn L all))).
Proof.
  intros H. unfold split_frames at 1.
  destruct (length all) as [|n] eqn:E; [lia|].
  simpl. rewrite E. apply Nat.ltb_lt in H as Hb. rewrite Hb.
  rewrite (@split_frames_aux n) by (rewrite length_skipn; lia).
  now destruct (split_frames L (skipn L all)).
Qed.

(** Induction along the frames of a buffer. *)
Lemma split_frames_ind (P : Buffer -> Prop) :
  (forall all, length all <= L -> P all) ->
  (forall all, L < length all -> P (skipn L all) -> P all) ->
  forall all, P all.
Proof.
  intros Hsmall Hstep all.
  remember (length all) as n eqn:En. revert all En.
  induction n as [n IH] using lt_wf_ind. intros all ->.
  destruct (Nat.le_gt_cases (length all) L) as [H|H]; [now apply Hsmall|].
  apply Hstep; [assumption|].
  apply (IH (length (skipn L all))); [rewrite length_skipn; lia|reflexivity].
Qed.

(** The frames and what is left are the buffer, in order. *)
Lemma split_frames_concat (all : Buffer) :
  concat (fst (split_frames L all)) ++ snd (split_frames L all) = all.
Proof.
  induction all as [all H|all H IH] using split_frames_ind.
  - now rewrite split_frames_small.
  - rewrite split_frames_step by assumption. simpl.
    rewrite <- app_assoc, IH. apply firstn_skipn.
Qed.

(** Every frame is [L] bytes long. *)
Lemma split_frames_length (all : Buffer) :
  Forall (fun frame => length frame = L) (fst (split_frames L all)).
Proof.
  induction all as [all H|all H IH] using split_frames_ind.
  - rewrite split_frames_small by assumption. constructor.
  - rewrite split_frames_step by assumption. simpl.
    constructor; [|assumption]. rewrite length_firstn. lia.
Qed.

(** What is left is at most one frame's worth of bytes, and is empty only
    when the buffer is. *)
Lemma split_frames_remaining (all : Buffer) :
  length (snd (split_frames L all)) <= L
  /\ (all <> [] -> snd (split_frames L all) <> []).
Proof.
  induction all as [all H|all H IH] using split_frames_ind.
  - rewrite split_frames_small by assumption. auto.
  - rewrite split_frames_step by assumption. simpl.
    destruct IH as [IH1 IH2]. split; [assumption|].
    intros _. apply IH2. intros E.
    apply (f_equal (@length _)) in E. rewrite length_skipn in E.
    simpl in E. lia.
Qed.

(** The number of frames: one less than the number of frames the bytes
    would fill, rounded up. *)
Lemma split_frames_count (all : Buffer) :
  length (fst (split_frames L all)) = (length all - 1) / L.
Proof.
  induction all as [all H|all H IH] using split_frames_ind.
  - rewrite split_frames_small by assumption. simpl.
    symmetry. apply Nat.div_small. lia.
  - rewrite split_frames_step by assumption. simpl.
    rewrite IH, length_skipn.
    replace (length all - 1) with ((length all - L - 1) + 1 * L) by lia.
    rewrite Nat.div_add by lia. lia.
Qed.

(** Cutting frames off two joined buffers: the frames of the first, then the
    frames of what the first left joined with the second. *)
Lemma split_frames_app (a b : Buffer) :
  split_frames L (a ++ b)
  = (fst (split_frames L a)
       ++ fst (split_frames L (snd (split_frames L a) ++ b)),
     snd (split_frames L (snd (split_frames L a) ++ b))).
Proof.
  induction a as [a H|a H IH] using split_frames_ind.
  - rewrite (split_frames_small a) by assumption. simpl.
    now destruct (split_frames L (a ++ b)).
  - rewrite (split_frames_step a) by assumption.
    rewrite (split_frames_step (a ++ b)) by (rewrite length_app; lia).
    simpl.
    rewrite firstn_app, skipn_app.
    replace (L - length a) with 0 by lia. simpl.
    rewrite app_nil_r, IH. reflexivity.
Qed.

End SplitFacts.

(** ** Frames through the stream *)

Section FeedFacts.

Context {vad_t : Type} {binding : Binding vad_t}.

Implicit Types (s : @VADStream vad_t) (chunk frame : Buffer)
  (frames : list Buffer).

Lemma set_buffer_same s : set_buffer s (buffer s) = s.
Proof. now destruct s. Qed.

Lemma set_buffer_twice s (b1 b2 : option Buffer) :
  set_buffer (set_buffer s b1) b2 = set_buffer s b2.
Proof. reflexivity. Qed.

(** [_processAudio] neither reads nor writes [this.buffer]. *)
Lemma _processAudio_set_buffer s (b : option Buffer) chunk :
  _processAudio (set_buffer s b) chunk
  = {| final := set_buffer (final (_processAudio s chunk)) b;
       pushed := pushed (_processAudio s chunk);
       result := result (_processAudio s chunk) |}.
Proof. frame_cases s chunk; reflexivity. Qed.

(** A frame of whole samples never makes [_processAudio] throw. *)
Lemma _processAudio_not_thrown s frame :
  Nat.even (length frame) = true ->
  forall e, result (_processAudio s frame) <> Thrown e.
Proof.
  intros Heven e. unfold _processAudio.
  cbn [vad audioFrequency set_byteCount].
  unfold processAudio. cbn [with_default strict_eq_num].
  replace (PrimFloat.eqb 16 32) with false by reflexivity.
  destruct (from16toFloatBuffer_even frame Heven) as (fd & -> & _).
  cbn [bind].
  destruct (vad_processAudioAsync _ _ _) as [v []]; stream_simpl;
    try discriminate;
    repeat (match goal with
            | |- context [if ?b then _ else _] => destruct b
            end; stream_simpl);
    discriminate.
Qed.

Lemma feed_chunkLengthBytes s frames :
  chunkLengthBytes (final (feed s frames)) = chunkLengthBytes s.
Proof.
  revert s. induction frames as [|frame frames IH]; intros s; simpl.
  - reflexivity.
  - destruct (result (_processAudio s frame)) eqn:E; simpl;
      try apply _processAudio_chunkLengthBytes.
    rewrite IH. apply _processAudio_chunkLengthBytes.
Qed.

Lemma feed_buffer s frames : buffer (final (feed s frames)) = buffer s.
Proof.
  revert s. induction frames as [|frame frames IH]; intros s; simpl.
  - reflexivity.
  - destruct (result (_processAudio s frame)) eqn:E; simpl;
      try apply _processAudio_config.
    rewrite IH. apply _processAudio_config.
Qed.

Lemma feed_not_diverges s frames : result (feed s frames) <> Diverges.
Proof.
  revert s. induction frames as [|frame frames IH]; intros s; simpl.
  - discriminate.
  - pose proof (_processAudio_pushed s frame) as Hp.
    destruct (result (_processAudio s frame)) eqn:E; simpl;
      try (rewrite E; discriminate); try contradiction.
    specialize (IH (final (_processAudio s frame))).
    destruct (result (feed (final (_processAudio s frame)) frames));
      try discriminate. contradiction.
Qed.

Lemma feed_not_thrown s frames :
  Forall (fun frame => Nat.even (length frame) = true) frames ->
  forall e, result (feed s frames) <> Thrown e.
Proof.
  intros Hall. revert s.
  induction Hall as [|frame frames Hf Hall IH]; intros s e; simpl.
  - discriminate.
  - destruct (result (_processAudio s frame)) eqn:E; simpl;
      try (rewrite E; try discriminate).
    + destruct (result (feed (final (_processAudio s frame)) frames));
        discriminate.
    + rewrite <- E. now apply _processAudio_not_thrown.
Qed.

Lemma feed_set_buffer s (b : option Buffer) frames :
  feed (set_buffer s b) frames
  = {| final := set_buffer (final (feed s frames)) b;
       pushed := pushed (feed s frames);
       result := result (feed s frames) |}.
Proof.
  revert s. induction frames as [|frame frames IH]; intros s; simpl.
  - reflexivity.
  - rewrite _processAudio_set_buffer. cbn [result final pushed].
    destruct (result (_processAudio s frame)) eqn:E;
      cbn [result final pushed]; try (rewrite E; reflexivity).
    rewrite IH. reflexivity.
Qed.

(** A fulfilled run pushed one event per frame, carrying the frames in
    order. *)
Lemma feed_audioData s frames :
  (exists u, result (feed s frames) = Fulfilled u) ->
  map audioData (pushed (feed s frames)) = frames.
Proof.
  revert s. induction frames as [|frame frames IH]; intros s [u Hu];
    simpl in *.
  - reflexivity.
  - pose proof (_processAudio_pushed s frame) as Hp.
    destruct (result (_processAudio s frame)) eqn:E; simpl in Hu;
      try (rewrite E in Hu; discriminate).
    destruct Hp as (sp & ->). cbn [pushed app map audioData]. f_equal.
    apply IH.
    destruct (result (feed (final (_processAudio s frame)) frames));
      try discriminate. eauto.
Qed.

(** At most one event per frame, each carrying a frame, in order: the
    events are those of the frames before the first failure. *)
Lemma feed_audioData_prefix s frames :
  exists rest, frames = map audioData (pushed (feed s frames)) ++ rest.
Proof.
  revert s. induction frames as [|frame frames IH]; intros s; simpl.
  - now exists [].
  - pose proof (_processAudio_pushed s frame) as Hp.
    destruct (result (_processAudio s frame)) eqn:E; simpl;
      try contradiction.
    + destruct Hp as (sp & ->). cbn [app map audioData].
      destruct (IH (final (_processAudio s frame))) as (rest & Hrest).
      exists rest. simpl. now f_equal.
    + rewrite Hp. simpl. eauto.
    + rewrite Hp. simpl. eauto.
Qed.

(** Frames after a fulfilled run go on from where it ended. *)
Lemma feed_app_fulfilled s frames1 frames2 :
  (exists u, result (feed s frames1) = Fulfilled u) ->
  (forall e, result (feed (final (feed s frames1)) frames2) <> Thrown e) ->
  feed s (frames1 ++ frames2)
  = {| final := final (feed (final (feed s frames1)) frames2);
       pushed := pushed (feed s frames1)
                 ++ pushed (feed (final (feed s frames1)) frames2);
       result := result (feed (final (feed s frames1)) frames2) |}.
Proof.
  revert s. induction frames1 as [|frame frames1 IH]; intros s [u Hu] Hnt;
    simpl in *.
  - now destruct (feed s frames2).
  - destruct (result (_processAudio s frame)) eqn:E; simpl in *;
      try (rewrite E in Hu; discriminate).
    rewrite IH; cbn [final pushed result].
    + rewrite app_assoc.
      destruct (result (feed (final (feed (final (_processAudio s frame))
                                       frames1)) frames2)) eqn:E2;
        try reflexivity.
      exfalso. eapply Hnt. reflexivity.
    + destruct (result (feed (final (_processAudio s frame)) frames1));
        try discriminate. eauto.
    + assumption.
Qed.

(** Frames after a failed run are never looked at. *)
Lemma feed_app_failed s frames1 frames2 :
  (forall u, result (feed s frames1) <> Fulfilled u) ->
  feed s (frames1 ++ frames2) = feed s frames1.
Proof.
  revert s. induction frames1 as [|frame frames1 IH]; intros s Hu;
    simpl in *.
  - exfalso. now apply (Hu tt).
  - destruct (result (_processAudio s frame)) eqn:E; simpl in *;
      try reflexivity.
    rewrite IH; [reflexivity|].
    intros u' E'. rewrite E' in Hu. now apply (Hu u').
Qed.

End FeedFacts.

(** ** [_chunkTransform], [_transform] and sequences of writes *)

Section StreamFacts.

Context {vad_t : Type} {binding : Binding vad_t}.

Implicit Types (s : @VADStream vad_t) (chunk frame all : Buffer)
  (frames : list Buffer) (chunks : list Buffer).

(** [_chunkTransform] is the chunker followed by the frames' processing;
    with a positive frame length the fuel [_transform] gives it is
    enough. *)
Lemma _chunkTransform_feed (fuel : nat) s chunk (start : nat) :
  0 < chunkLengthBytes s ->
  length chunk - start <= fuel ->
  _chunkTransform fuel s chunk start
  = finish (feed s (fst (split_aux fuel (chunkLengthBytes s)
                           (skipn start chunk))))
           (snd (split_aux fuel (chunkLengthBytes s) (skipn start chunk))).
Proof.
  revert s start.
  induction fuel as [|fuel IH]; intros s start HL Hfuel.
  - simpl. rewrite length_skipn.
    destruct (start + chunkLengthBytes s <? length chunk) eqn:E;
      [apply Nat.ltb_lt in E; lia|].
    destruct (chunkLengthBytes s <? length chunk - start) eqn:E';
      [apply Nat.ltb_lt in E'; lia|].
    reflexivity.
  - cbn [_chunkTransform split_aux]. rewrite length_skipn.
    destruct (start + chunkLengthBytes s <? length chunk) eqn:E.
    + apply Nat.ltb_lt in E.
      assert ((chunkLengthBytes s <? length chunk - start) = true) as ->
          by (apply Nat.ltb_lt; lia).
      unfold Buf.slice.
      replace (start + chunkLengthBytes s - start)
        with (chunkLengthBytes s) by lia.
      rewrite skipn_skipn.
      set (frame := firstn (chunkLengthBytes s) (skipn start chunk)).
      destruct (split_aux fuel (chunkLengthBytes s)
                  (skipn (chunkLengthBytes s + start) chunk))
        as [frames remaining] eqn:Es.
      cbn [fst snd feed].
      destruct (result (_processAudio s frame)) eqn:Er;
        unfold finish; cbn [final pushed result]; try (now rewrite Er).
      rewrite IH;
        [|now rewrite _processAudio_chunkLengthBytes
         |rewrite ?_processAudio_chunkLengthBytes; lia].
      rewrite _processAudio_chunkLengthBytes.
      rewrite (Nat.add_comm start), Es. cbn [fst snd].
      unfold finish. cbn [final pushed result].
      now destruct (result (feed (final (_processAudio s frame)) frames)).
    + apply Nat.ltb_ge in E.
      assert ((chunkLengthBytes s <? length chunk - start) = false) as ->
          by (apply Nat.ltb_ge; lia).
      reflexivity.
Qed.

(** One write, by the frames of the buffer joined with the chunk. *)
Lemma _transform_feed s (b : Buffer) chunk :
  0 < chunkLengthBytes s ->
  buffer s = Some b ->
  let L := chunkLengthBytes s in
  let o := feed s (fst (split_frames L (b ++ chunk))) in
  _transform s chunk
  = match result o with
    | Fulfilled _ =>
        {| final :=
             set_buffer (final o) (Some (snd (split_frames L (b ++ chunk))));
           pushed := pushed o; result := Fulfilled tt |}
    | Rejected e =>
        {| final := set_buffer (final o) None;
           pushed := pushed o; result := Rejected e |}
    | Thrown e =>
        {| final := final o; pushed := pushed o; result := Thrown e |}
    | Diverges =>
        {| final := final o; pushed := pushed o; result := Diverges |}
    end.
Proof.
  intros HL Hb L o. unfold _transform. rewrite Hb.
  rewrite _chunkTransform_feed by (assumption || lia).
  rewrite skipn_O. fold L. fold (split_frames L (b ++ chunk)). fold o.
  unfold finish. cbn [final pushed result].
  now destruct (result o).
Qed.

(** With a positive frame length a write always settles: the fuel that
    [_transform] hands to [_chunkTransform] is never used up. *)
Lemma _transform_settles s chunk :
  0 < chunkLengthBytes s -> result (_transform s chunk) <> Diverges.
Proof.
  intros HL. destruct (buffer s) as [b|] eqn:Hb.
  - rewrite (_transform_feed s chunk HL Hb).
    pose proof (feed_not_diverges s
                  (fst (split_frames (chunkLengthBytes s) (b ++ chunk)))) as H.
    destruct (result (feed s (fst (split_frames (chunkLengthBytes s)
                                     (b ++ chunk)))));
      cbn [result]; congruence.
  - unfold _transform. rewrite Hb. discriminate.
Qed.

(** Once the buffer is [null] no write does anything. *)
Lemma writes_null s chunks :
  buffer s = None -> writes s chunks = (s, []).
Proof.
  intros Hb. induction chunks as [|chunk chunks IH]; simpl.
  - reflexivity.
  - unfold _transform. rewrite Hb. cbn [final pushed]. now rewrite IH.
Qed.

Lemma split_frames_even (L : nat) all :
  0 < L -> Nat.even L = true ->
  Forall (fun frame => Nat.even (length frame) = true)
    (fst (split_frames L all)).
Proof.
  intros HL He.
  eapply Forall_impl; [|now apply split_frames_length].
  simpl. now intros frame ->.
Qed.

(** A sequence of writes does to the stream what processing the frames of
    all the bytes, joined, does. *)
Lemma writes_feed chunks : forall s (b : Buffer),
  frames_ok s -> buffer s = Some b -> length b <= chunkLengthBytes s ->
  let L := chunkLengthBytes s in
  let o := feed s (fst (split_frames L (b ++ concat chunks))) in
  writes s chunks
  = (set_buffer (final o)
       (match result o with
        | Fulfilled _ => Some (snd (split_frames L (b ++ concat chunks)))
        | _ => None
        end),
     pushed o).
Proof.
  induction chunks as [|chunk chunks IH]; intros s b [HL He] Hb Hlen L o.
  - subst o. simpl. rewrite app_nil_r.
    rewrite split_frames_small by assumption. simpl.
    now rewrite <- Hb, set_buffer_same.
  - cbn [writes concat].
    rewrite (_transform_feed s chunk HL Hb). fold L.
    set (o1 := feed s (fst (split_frames L (b ++ chunk)))).
    assert (Hsplit := split_frames_app HL (b ++ chunk) (concat chunks)).
    fold L in Hsplit. rewrite <- app_assoc in Hsplit.
    assert (Hnt1 : forall e, result o1 <> Thrown e)
      by (apply feed_not_thrown; now apply split_frames_even).
    pose proof (@feed_not_diverges _ _ s
                  (fst (split_frames L (b ++ chunk)))) as Hnd1.
    fold o1 in Hnd1.
    destruct (result o1) eqn:E1.
    + (* the frames of this write all went through *)
      cbn [final pushed].
      set (rem1 := snd (split_frames L (b ++ chunk))) in *.
      assert (HL1 : chunkLengthBytes (set_buffer (final o1) (Some rem1)) = L)
        by (unfold chunkLengthBytes; cbn [chunkLength set_buffer];
            apply feed_chunkLengthBytes).
      rewrite (IH (set_buffer (final o1) (Some rem1)) rem1);
        [ | unfold frames_ok; rewrite HL1; now split
          | reflexivity
          | rewrite HL1; apply split_frames_remaining; assumption ].
      rewrite HL1, feed_set_buffer. cbn [final pushed result].
      rewrite set_buffer_twice.
      subst o. cbn [concat]. rewrite Hsplit. cbn [fst snd].
      rewrite feed_app_fulfilled;
        [ | fold o1; eauto
          | fold o1; apply feed_not_thrown; now apply split_frames_even ].
      fold o1. cbn [final pushed result]. reflexivity.
    + (* a frame of this write was rejected *)
      cbn [final pushed].
      rewrite writes_null by reflexivity.
      subst o. cbn [concat]. rewrite Hsplit. cbn [fst snd].
      rewrite feed_app_failed by (fold o1; rewrite E1; discriminate).
      fold o1. rewrite E1, app_nil_r. reflexivity.
    + exfalso. now apply (Hnt1 e).
    + exfalso. now apply Hnd1.
Qed.

End StreamFacts.

(** ** Construction *)

Section ConstructionFacts.

Context {vad_t : Type} {binding : Binding vad_t}.

Lemma rate_test (f : float) :
  (PrimFloat.eqb f 8000 || PrimFloat.eqb f 16000
   || PrimFloat.eqb f 32000 || PrimFloat.eqb f 48000) = true
  <-> (f = 8000 \/ f = 16000 \/ f = 32000 \/ f = 48000)%float.
Proof.
  split.
  - intros H. repeat (apply orb_true_iff in H as [H|H]);
      apply NumFacts.eqb_true_eq in H; auto.
  - intros [->|[->|[->| ->]]]; reflexivity.
Qed.

Lemma VAD_new_accepts (mode : jsval) :
  native_ready ->
  (exists v, VAD_new (with_default mode (JSNumber Mode.NORMAL)) = Return v)
  <-> Config.mode_in_range mode.
Proof.
  intros (size & v & v' & Hs & Ha & Hi). unfold VAD_new.
  rewrite Hs, Ha, Hi. unfold Config.mode_in_range, Num.geb.
  split.
  - destruct mode as [| |b|m|str|]; cbn [with_default];
      intros [w Hw]; try discriminate; auto.
    right. exists m.
    destruct (PrimFloat.leb Mode.NORMAL m), (PrimFloat.leb m Mode.VERY_AGGRESSIVE);
      try discriminate. auto.
  - intros [->|(m & -> & H1 & H2)]; cbn [with_default].
    + eexists. reflexivity.
    + rewrite H1, H2. eexists. reflexivity.
Qed.

(** With the native side ready, the constructor returns exactly on the
    accepted options. *)
Lemma VADStream_new_accepts (o : Options.t) :
  native_ready ->
  (exists s, VADStream_new o = Return s) <-> Config.accepted o.
Proof.
  intros Hn. unfold Config.accepted.
  rewrite <- (VAD_new_accepts (Options.mode o) Hn).
  unfold VADStream_new, Config.rate_listed, Config.debounce_listed.
  destruct (VAD_new (with_default (Options.mode o) (JSNumber Mode.NORMAL)))
    as [v|e]; cbn [bind].
  2:{ split; [intros [s Hs]; discriminate|].
      intros ([w Hw] & _); discriminate. }
  split.
  - intros [s Hs]. split; [eauto|].
    destruct (Options.audioFrequency o) as [| |b|f|str|];
      cbn [with_default] in Hs; try discriminate.
    + split; [auto|].
      destruct (Options.debounceTime o) as [| |b|d|str|];
        cbn [with_default] in Hs; try discriminate; auto.
      right. exists d. split; [reflexivity|].
      cbn [negb orb] in Hs.
      replace (PrimFloat.eqb 16000 8000 || PrimFloat.eqb 16000 16000
               || PrimFloat.eqb 16000 32000 || PrimFloat.eqb 16000 48000)
        with true in Hs by reflexivity.
      cbn [negb] in Hs.
      destruct (PrimFloat.ltb d 0); [discriminate|reflexivity].
    + destruct (PrimFloat.eqb f 8000 || PrimFloat.eqb f 16000
                || PrimFloat.eqb f 32000 || PrimFloat.eqb f 48000) eqn:Ef;
        cbn [negb] in Hs; [|discriminate].
      apply rate_test in Ef. split.
      * destruct Ef as [->|[->|[->| ->]]]; auto 6.
      * destruct (Options.debounceTime o) as [| |b|d|str|];
          cbn [with_default] in Hs; try discriminate; auto.
        right. exists d. split; [reflexivity|].
        destruct (PrimFloat.ltb d 0); [discriminate|reflexivity].
  - intros (_ & Hf & Hd).
    assert (exists f, with_default (Options.audioFrequency o) (JSNumber 16000)
                      = JSNumber f
                      /\ (PrimFloat.eqb f 8000 || PrimFloat.eqb f 16000
                          || PrimFloat.eqb f 32000 || PrimFloat.eqb f 48000)
                         = true) as (f & -> & ->).
    { destruct Hf as [->|[->|[->|[->| ->]]]]; cbn [with_default];
        eexists; split; reflexivity. }
    assert (exists d, with_default (Options.debounceTime o) (JSNumber 1000)
                      = JSNumber d /\ PrimFloat.ltb d 0 = false)
      as (d & -> & ->).
    { destruct Hd as [->|(d & -> & Hd)]; cbn [with_default];
        eexists; split; (reflexivity || eassumption). }
    cbn [negb]. eexists. reflexivity.
Qed.

(** A fresh stream: nothing buffered, not speaking, and a frame length that
    is positive and even. *)
Lemma VADStream_new_fresh (o : Options.t) s :
  VADStream_new o = Return s ->
  buffer s = Some [] /\ state s = false /\ startTime s = 0%float
  /\ byteCount s = 0
  /\ (chunkLengthBytes s = 960 \/ chunkLengthBytes s = 960 * 2
      \/ chunkLengthBytes s = 960 * 4 \/ chunkLengthBytes s = 960 * 6).
Proof.
  unfold VADStream_new.
  destruct (VAD_new _) as [v|e]; cbn [bind]; [|discriminate].
  destruct (with_default (Options.audioFrequency o) (JSNumber 16000))
    as [| |b|f|str|]; try discriminate.
  destruct (PrimFloat.eqb f 8000 || PrimFloat.eqb f 16000
            || PrimFloat.eqb f 32000 || PrimFloat.eqb f 48000) eqn:Ef;
    cbn [negb]; [|discriminate].
  destruct (with_default (Options.debounceTime o) (JSNumber 1000))
    as [| |b|d|str|]; try discriminate.
  destruct (PrimFloat.ltb d 0); [discriminate|].
  intros [= <-]. unfold chunkLengthBytes. stream_simpl.
  repeat split.
  apply rate_test in Ef.
  destruct Ef as [->|[->|[->| ->]]]; vm_compute; auto.
Qed.

Lemma VADStream_new_frames_ok (o : Options.t) s :
  VADStream_new o = Return s -> frames_ok s.
Proof.
  intros H. apply VADStream_new_fresh in H as (_ & _ & _ & _ & HL).
  unfold frames_ok.
  destruct HL as [->|[->|[->| ->]]]; split; (lia || reflexivity).
Qed.

End ConstructionFacts.

(** ** Where events come from *)

Section EventOrigin.

Context {vad_t : Type} {binding : Binding vad_t}.

Implicit Types (s : @VADStream vad_t) (chunk frame : Buffer)
  (ev : FrameEvent).

(** A property of the stream that frame processing and buffer updates
    keep. *)
Variable P : @VADStream vad_t -> Prop.
Hypothesis P_frame : forall s frame, P s -> P (final (_processAudio s frame)).
Hypothesis P_buffer : forall s b, P s -> P (set_buffer s b).

Lemma _chunkTransform_origin (fuel : nat) : forall s chunk (start : nat),
  P s ->
  P (final (_chunkTransform fuel s chunk start))
  /\ forall ev, In ev (pushed (_chunkTransform fuel s chunk start)) ->
       exists s' frame, P s' /\ In ev (pushed (_processAudio s' frame)).
Proof.
  induction fuel as [|fuel IH]; intros s chunk start Hs;
    cbn [_chunkTransform];
    (destruct (start + chunkLengthBytes s <? length chunk);
     [|cbn [final pushed]; split; [assumption|intros ev []]]);
    set (frame := Buf.slice chunk start (start + chunkLengthBytes s));
    pose proof (P_frame frame Hs) as Hs';
    (destruct (result (_processAudio s frame));
     cbn [final pushed]; try (split; [assumption|eauto])).
  destruct (IH (final (_processAudio s frame)) chunk
              (start + chunkLengthBytes s) Hs') as [Hf He].
  split; [assumption|].
  intros ev Hin. apply in_app_iff in Hin as [Hin|Hin]; eauto.
Qed.

Lemma _transform_origin s chunk :
  P s ->
  P (final (_transform s chunk))
  /\ forall ev, In ev (pushed (_transform s chunk)) ->
       exists s' frame, P s' /\ In ev (pushed (_processAudio s' frame)).
Proof.
  intros Hs. unfold _transform.
  destruct (buffer s) as [b|];
    [|cbn [final pushed]; split; [assumption|intros ev []]].
  destruct (_chunkTransform_origin (length (b ++ chunk)) (b ++ chunk) 0 Hs)
    as [Hf He].
  destruct (result (_chunkTransform _ s (b ++ chunk) 0));
    cbn [final pushed]; split; auto.
Qed.

(** Every event of a sequence of writes was pushed by [_processAudio],
    called in a state in which the property holds. *)
Lemma writes_origin (chunks : list Buffer) : forall s,
  P s ->
  forall ev, In ev (snd (writes s chunks)) ->
    exists s' frame, P s' /\ In ev (pushed (_processAudio s' frame)).
Proof.
  induction chunks as [|chunk chunks IH]; intros s Hs ev; cbn [writes].
  - intros [].
  - destruct (_transform_origin chunk Hs) as [Hf He].
    specialize (IH (final (_transform s chunk)) Hf ev).
    destruct (writes (final (_transform s chunk)) chunks) as [s' evs].
    cbn [snd] in *. intros Hin.
    apply in_app_iff in Hin as [Hin|Hin]; auto.
Qed.

End EventOrigin.

(** Every event a stream pushes comes out of a call of [_processAudio]. *)
Lemma writes_events_are_frame_events {vad_t : Type} {binding : Binding vad_t}
  (s : @VADStream vad_t) (chunks : list Buffer) (ev : FrameEvent) :
  In ev (snd (writes s chunks)) ->
  exists s' frame, In ev (pushed (_processAudio s' frame)).
Proof.
  intros Hin.
  destruct (writes_origin (fun _ => True) (fun _ _ _ => I) (fun _ _ _ => I)
              chunks s I ev Hin) as (s' & frame & _ & H).
  eauto.
Qed.

(** ** The speech fields of an event *)

Section SpeechFields.

Context {vad_t : Type} {binding : Binding vad_t}.

Implicit Types (s : @VADStream vad_t) (chunk frame : Buffer) (ev : FrameEvent).

(** One more event keeps the stream and the events in step. *)
Lemma tracks_step s frame ev (evs : list FrameEvent) :
  tracks s evs ->
  In ev (pushed (_processAudio s frame)) ->
  tracks (final (_processAudio s frame)) (evs ++ [ev]).
Proof.
  unfold tracks, open_segment. intros Ht Hin.
  rewrite fold_left_app. cbn [fold_left].
  fold (open_segment evs).
  destruct (_processAudio_event s frame ev Hin)
    as (_ & _ & _ & _ & Hstart & Hend & Hmid).
  destruct (speech_start (speech ev)) eqn:Es.
  - destruct (Hstart eq_refl) as (_ & H1 & _ & _ & H2). auto.
  - destruct (speech_end (speech ev)) eqn:Ee.
    + destruct (Hend eq_refl) as (_ & H1 & _ & _ & H2). auto.
    + destruct (Hmid eq_refl eq_refl) as (H1 & H2 & _).
      rewrite H1, H2. exact Ht.
Qed.

(** Each event of a run of frames was pushed by [_processAudio] in a state
    that is in step with the events before it. *)
Lemma feed_tracks (frames : list Buffer) :
  forall s (evs before later : list FrameEvent) ev,
    tracks s evs ->
    pushed (feed s frames) = before ++ ev :: later ->
    exists s' frame,
      tracks s' (evs ++ before) /\ In ev (pushed (_processAudio s' frame)).
Proof.
  induction frames as [|frame frames IH];
    intros s evs before later ev Ht Hp; cbn [feed pushed] in Hp.
  - now destruct before.
  - pose proof (_processAudio_pushed s frame) as Hpushed.
    destruct (result (_processAudio s frame)) eqn:Er;
      try (rewrite Hpushed in Hp; now destruct before);
      try contradiction.
    destruct Hpushed as (sp & Hsp). cbn [pushed] in Hp. rewrite Hsp in Hp.
    assert (Hin : In {| time := frame_time s; audioData := frame;
                        speech := sp |} (pushed (_processAudio s frame)))
      by (rewrite Hsp; now left).
    destruct before as [|ev1 before]; cbn [app] in Hp;
      injection Hp as Hev Hrest.
    + subst ev. exists s, frame. now rewrite app_nil_r.
    + subst ev1.
      destruct (IH (final (_processAudio s frame))
                  (evs ++ [ {| time := frame_time s; audioData := frame;
                               speech := sp |} ]) before later ev
                  (tracks_step s frame _ evs Ht Hin) Hrest)
        as (s' & frame' & Ht' & Hin').
      exists s', frame'. rewrite <- app_assoc in Ht'. auto.
Qed.

(** Each event of a stream was pushed by [_processAudio] in a state that is
    in step with the events before it. *)
Lemma event_context (o : Options.t) s0 (chunks : list Buffer)
  (before later : list FrameEvent) ev :
  VADStream_new o = Return s0 ->
  snd (writes s0 chunks) = before ++ ev :: later ->
  exists s frame,
    tracks s before /\ In ev (pushed (_processAudio s frame)).
Proof.
  intros Hnew Hevs.
  pose proof (VADStream_new_frames_ok o Hnew) as Hok.
  apply VADStream_new_fresh in Hnew as (Hb & Hst & Hs0 & _).
  rewrite (writes_feed chunks Hok Hb) in Hevs by (simpl; lia).
  cbn [snd] in Hevs.
  exact (feed_tracks _ s0 [] before later ev (conj Hst Hs0) Hevs).
Qed.

(** (C1, as amended) The duration of an event is computed from the speaking
    flag as it was before the frame's transition.  So it is [time - startTime]
    on every frame inside a segment and on the frame that ends one, where the
    emitted state is already false and the emitted startTime is the start time
    before the reset; and it is 0 on the frame that starts a segment, where
    startTime is the frame's own time, and on every frame outside a segment. *)
Theorem duration_from_flag_before_transition s (chunks : list Buffer) ev :
  In ev (snd (writes s chunks)) ->
  let sp := speech ev in
  (exists s' frame,
      In ev (pushed (_processAudio s' frame))
      /\ speech_duration sp
         = (if state s' then (time ev - startTime s')%float else 0%float))
  /\ (speech_state sp = true -> speech_start sp = false ->
      speech_duration sp = (time ev - speech_startTime sp)%float)
  /\ (speech_start sp = true ->
      speech_state sp = true /\ speech_duration sp = 0%float
      /\ speech_startTime sp = time ev
      /\ (is_finite (time ev) = true ->
          speech_duration sp = (time ev - speech_startTime sp)%float))
  /\ (speech_end sp = true ->
      speech_state sp = false
      /\ speech_duration sp = (time ev - speech_startTime sp)%float)
  /\ (speech_state sp = false -> speech_end sp = false ->
      speech_duration sp = 0%float).
Proof.
  intros Hin sp.
  apply writes_events_are_frame_events in Hin as (s' & frame & Hin).
  destruct (_processAudio_event s' frame ev Hin)
    as (Ht & _ & Hst & Hd & Hstart & Hend & Hmid).
  fold sp in Hst, Hd, Hstart, Hend, Hmid.
  split; [now exists s', frame|]. split; [|split; [|split]].
  - intros H1 H2.
    destruct (speech_end sp) eqn:He.
    + destruct (Hend eq_refl) as (_ & H3 & _). congruence.
    + destruct (Hmid H2 eq_refl) as (H3 & _ & H4).
      rewrite Hd, H4. replace (state s') with true by congruence. reflexivity.
  - intros H1. destruct (Hstart H1) as (H2 & H3 & _ & H4 & _).
    rewrite Hd, H2, H4. repeat split; [congruence|].
    intros Hfin. now rewrite NumFacts.sub_diag.
  - intros H1. destruct (Hend H1) as (H2 & H3 & _ & H4 & _).
    rewrite Hd, H2, H4. split; [congruence|reflexivity].
  - intros H1 H2.
    destruct (speech_start sp) eqn:Hs.
    + destruct (Hstart eq_refl) as (_ & H3 & _). congruence.
    + destruct (Hmid eq_refl H2) as (H3 & _).
      rewrite Hd. replace (state s') with false by congruence. reflexivity.
Qed.

(** (C8) Every event of a stream was pushed by [_processAudio] in a state of
    the machine that is in step with the events before it.  On a frame that
    starts a segment no segment was open, and the emitted startTime is the
    start time just assigned, the frame's own time; on a frame that ends a
    segment the emitted startTime is the start time the machine carried
    before the frame, the time of the frame that opened the segment, while
    the machine's own start time is reset to 0. *)
Theorem startTime_on_transition_frames (o : Options.t) s0
  (chunks : list Buffer) (before later : list FrameEvent) ev :
  VADStream_new o = Return s0 ->
  snd (writes s0 chunks) = before ++ ev :: later ->
  exists s frame,
    In ev (pushed (_processAudio s frame))
    /\ tracks s before
    /\ (speech_start (speech ev) = true ->
        speech_startTime (speech ev) = time ev
        /\ time ev = frame_time s
        /\ startTime (final (_processAudio s frame)) = time ev
        /\ open_segment before = None)
    /\ (speech_end (speech ev) = true ->
        speech_startTime (speech ev) = startTime s
        /\ startTime (final (_processAudio s frame)) = 0%float
        /\ open_segment before = Some (speech_startTime (speech ev))).
Proof.
  intros Hnew Hevs.
  destruct (event_context o chunks before later ev Hnew Hevs)
    as (s & frame & Ht & Hin).
  exists s, frame. split; [assumption|]. split; [assumption|].
  destruct (_processAudio_event s frame ev Hin)
    as (Htime & _ & _ & _ & Hstart & Hend & _).
  unfold tracks in Ht.
  split.
  - intros H. destruct (Hstart H) as (H0 & _ & _ & H1 & H2).
    repeat split; try assumption.
    destruct (open_segment before) as [t|]; [|reflexivity].
    destruct Ht. congruence.
  - intros H. destruct (Hend H) as (H0 & _ & _ & H1 & H2).
    repeat split; try assumption.
    destruct (open_segment before) as [t|]; destruct Ht; congruence.
Qed.

(** (C10) Off the transition frames the emitted startTime is determined too.
    Every event of a stream was pushed by [_processAudio] in a state of the
    machine that is in step with the events before it.  On a frame inside a
    segment (state true, start false) the emitted startTime is the start time
    that state carries, which is the time of the frame that opened the
    segment, and the frame leaves it in place; on a frame outside a segment
    (state false, end false) no segment is open and the emitted startTime
    is 0. *)
Theorem startTime_off_transition_frames (o : Options.t) s0
  (chunks : list Buffer) (before later : list FrameEvent) ev :
  VADStream_new o = Return s0 ->
  snd (writes s0 chunks) = before ++ ev :: later ->
  exists s frame,
    In ev (pushed (_processAudio s frame))
    /\ tracks s before
    /\ (speech_state (speech ev) = true -> speech_start (speech ev) = false ->
        state s = true
        /\ speech_startTime (speech ev) = startTime s
        /\ startTime (final (_processAudio s frame)) = startTime s
        /\ open_segment before = Some (speech_startTime (speech ev)))
    /\ (speech_state (speech ev) = false -> speech_end (speech ev) = false ->
        speech_startTime (speech ev) = 0%float
        /\ open_segment before = None).
Proof.
  intros Hnew Hevs.
  destruct (event_context o chunks before later ev Hnew Hevs)
    as (s & frame & Ht & Hin).
  exists s, frame. split; [assumption|]. split; [assumption|].
  destruct (_processAudio_event s frame ev Hin)
    as (_ & _ & Hstate & _ & Hstart & Hend & Hmid).
  unfold tracks in Ht.
  split.
  - intros H1 H2.
    destruct (speech_end (speech ev)) eqn:He.
    + destruct (Hend eq_refl) as (_ & H3 & _). congruence.
    + destruct (Hmid H2 eq_refl) as (H3 & H4 & H5).
      assert (Hs : state s = true) by congruence.
      destruct (open_segment before) as [t|];
        destruct Ht as [Ht1 Ht2]; [|congruence].
      repeat split; congruence.
  - intros H1 H2.
    destruct (speech_start (speech ev)) eqn:Hs.
    + destruct (Hstart eq_refl) as (_ & H3 & _). congruence.
    + destruct (Hmid eq_refl H2) as (H3 & H4 & H5).
      assert (Hs' : state s = false) by congruence.
      destruct (open_segment before) as [t|];
        destruct Ht as [Ht1 Ht2]; [congruence|].
      split; congruence.
Qed.

End SpeechFields.

(** ** The chunker across writes *)

Section Chunker.

Context {vad_t : Type} {binding : Binding vad_t}.

Implicit Types (s : @VADStream vad_t) (chunk frame : Buffer)
  (chunks : list Buffer).

(** What a fulfilled write leaves in the buffer: at most one frame's worth of
    bytes, and at least one byte once there are any. *)
Lemma _transform_leftover s (b : Buffer) chunk :
  0 < chunkLengthBytes s ->
  buffer s = Some b ->
  result (_transform s chunk) = Fulfilled tt ->
  exists remaining,
    buffer (final (_transform s chunk)) = Some remaining
    /\ length remaining <= chunkLengthBytes s
    /\ (b ++ chunk <> [] -> remaining <> []).
Proof.
  intros HL Hb. rewrite (_transform_feed s chunk HL Hb).
  pose proof (split_frames_remaining HL (b ++ chunk)) as Hrem.
  destruct (result (feed s (fst (split_frames (chunkLengthBytes s)
                                   (b ++ chunk)))));
    cbn [result final buffer set_buffer]; try discriminate.
  intros _. eauto.
Qed.

(** (C7, as amended) The chunker neither reorders nor duplicates bytes, and
    drops none while no write has failed.  The audio of the events pushed so
    far, in order, is always a prefix of the bytes written, in order; and as
    long as no write failed, so that the stream still holds a buffer, that
    audio followed by what the buffer holds is all the bytes written.  A
    write that failed on an ERROR frame has set the buffer to null, and the
    bytes from that frame on are gone. *)
Theorem frames_and_leftover_are_the_input (o : Options.t) s0 chunks :
  VADStream_new o = Return s0 ->
  (exists rest,
      concat (map audioData (snd (writes s0 chunks))) ++ rest
      = concat chunks)
  /\ forall remaining : Buffer,
       buffer (fst (writes s0 chunks)) = Some remaining ->
       concat (map audioData (snd (writes s0 chunks))) ++ remaining
       = concat chunks.
Proof.
  intros Hnew.
  pose proof (VADStream_new_frames_ok o Hnew) as Hok.
  apply VADStream_new_fresh in Hnew as (Hb & _).
  rewrite (writes_feed chunks Hok Hb) by (simpl; lia).
  cbn [fst snd app buffer set_buffer].
  set (L := chunkLengthBytes s0).
  pose proof (split_frames_concat (proj1 Hok) (concat chunks)) as Hcat.
  fold L in Hcat.
  split.
  - destruct (feed_audioData_prefix s0 (fst (split_frames L (concat chunks))))
      as (rest & Hrest).
    exists (concat rest ++ snd (split_frames L (concat chunks))).
    rewrite app_assoc, <- concat_app.
    etransitivity; [|exact Hcat].
    f_equal. f_equal. symmetry. exact Hrest.
  - intros remaining.
    destruct (result (feed s0 (fst (split_frames L (concat chunks))))) eqn:E;
      try discriminate.
    intros [= <-].
    rewrite feed_audioData by eauto.
    exact Hcat.
Qed.

(** (C4) Chunk-boundary independence: however the bytes are cut into writes,
    the stream pushes the same events and ends in the same state.  The
    classifier is a function of its own state and the frame. *)
Theorem chunk_boundary_independence (o : Options.t) s0 chunks1 chunks2 :
  VADStream_new o = Return s0 ->
  concat chunks1 = concat chunks2 ->
  snd (writes s0 chunks1) = snd (writes s0 chunks2)
  /\ fst (writes s0 chunks1) = fst (writes s0 chunks2).
Proof.
  intros Hnew Hcat.
  pose proof (VADStream_new_frames_ok o Hnew) as Hok.
  apply VADStream_new_fresh in Hnew as (Hb & _).
  rewrite !(writes_feed _ Hok Hb) by (simpl; lia).
  rewrite Hcat. split; reflexivity.
Qed.

(** (C5) A frame classified ERROR is fatal.  When the frames cut off the
    buffer and the chunk are [before], then [frame], then [later], the frames
    [before] go through and the classifier answers ERROR for [frame]: the
    write pushes the events of [before] and nothing for [frame] or [later],
    hands the error to its callback, and sets the buffer to null; no write
    after it pushes anything. *)
Theorem classification_error_is_fatal s (b chunk : Buffer)
  (before later : list Buffer) (frame : Buffer) :
  0 < chunkLengthBytes s ->
  buffer s = Some b ->
  fst (split_frames (chunkLengthBytes s) (b ++ chunk))
  = before ++ frame :: later ->
  result (feed s before) = Fulfilled tt ->
  classification (final (feed s before)) frame = Some ERROR ->
  let o := _transform s chunk in
  pushed o = pushed (feed s before)
  /\ map audioData (pushed o) = before
  /\ result o = Rejected (Error "Error in VAD")
  /\ buffer (final o) = None
  /\ forall chunks, writes (final o) chunks = (final o, []).
Proof.
  intros HL Hb Hsplit Hbefore Herr o. subst o.
  rewrite (_transform_feed s chunk HL Hb), Hsplit.
  apply _processAudio_error in Herr as [Hp Hr].
  assert (Hfeed : feed (final (feed s before)) (frame :: later)
                  = _processAudio (final (feed s before)) frame)
    by (simpl; now rewrite Hr).
  rewrite feed_app_fulfilled by (eauto || rewrite Hfeed, Hr; discriminate).
  rewrite Hfeed, Hr, Hp, app_nil_r. cbn [final pushed result buffer set_buffer].
  repeat split.
  - apply feed_audioData. eauto.
  - intros chunks. now apply writes_null.
Qed.

End Chunker.

(** ** [processAudio] and the bit depth *)

Section BitDepth.

Context {vad_t : Type} {binding : Binding vad_t}.


End BitDepth.

(** ** Construction and the configuration *)

Section Construction.

Context {vad_t : Type} {binding : Binding vad_t}.

Lemma valid_accepted (o : Options.t) : Config.valid o -> Config.accepted o.
Proof.
  intros (Hm & Hr & Hd). repeat split; try assumption.
  unfold Config.mode_in_range.
  destruct Hm as [->|[->|[->|[->| ->]]]]; [now left|right..];
    eexists; (split; [reflexivity|split; reflexivity]).
Qed.

(** (C6, as amended) With the native side allocating, construction throws
    exactly when, defaults filled in for the options left out, the mode is not
    a number from NORMAL to VERY_AGGRESSIVE, or the sample rate is not one of
    8000, 16000, 32000 and 48000, or the debounce time is not a number or is
    negative.  Every valid configuration constructs, a debounce time of 0
    included. *)
Theorem construction_throws_iff_not_accepted (o : Options.t) :
  native_ready ->
  ((exists e, VADStream_new o = Throw e) <-> ~ Config.accepted o)
  /\ (Config.valid o -> exists s, VADStream_new o = Return s).
Proof.
  intros Hn. pose proof (VADStream_new_accepts o Hn) as Hacc.
  split.
  - split.
    + intros [e He] Ha. apply Hacc in Ha as [s Hs]. congruence.
    + intros Hna. destruct (VADStream_new o) as [s|e] eqn:E; [|eauto].
      exfalso. apply Hna, Hacc. eauto.
  - intros Hv. apply Hacc. now apply valid_accepted.
Qed.

End Construction.

(** ** The code at concrete inputs *)

Module Runs.

Import Demo.

Lemma JSNumber_inj (x y : float) : JSNumber x = JSNumber y -> x = y.
Proof.
  intros H.
  exact (f_equal (fun v => match v with JSNumber z => z | _ => x end) H).
Qed.

Lemma fresh_is_constructed (debounce : float) :
  PrimFloat.ltb debounce 0 = false ->
  VADStream_new (options8000 debounce) = Return (fresh debounce).
Proof.
  intros H. unfold VADStream_new, options8000.
  cbn [Options.mode Options.audioFrequency Options.debounceTime with_default].
  replace (VAD_new (JSNumber Mode.NORMAL)) with (Return {| _vad := 0 |})
    by reflexivity.
  cbn [bind].
  replace (PrimFloat.eqb 8000 8000 || PrimFloat.eqb 8000 16000
           || PrimFloat.eqb 8000 32000 || PrimFloat.eqb 8000 48000)
    with true by reflexivity.
  cbn [negb]. rewrite H. reflexivity.
Qed.

(** (C1, the claim as written fails) A voice frame, then a silent frame with
    a debounce time of 0: the second event ends the segment, its state is
    false, and its duration is 60, not 0. *)
Lemma end_frame_duration_is_not_zero :
  exists ev,
    In ev (events (options8000 0) [voice 960 ++ silence 960 ++ [x00]])
    /\ speech_state (speech ev) = false
    /\ speech_end (speech ev) = true
    /\ speech_duration (speech ev) = 60%float
    /\ speech_duration (speech ev) <> 0%float.
Proof.
  exists (event 60 (silence 960) false false true 0 60).
  split; [vm_compute; right; left; reflexivity|].
  repeat split. apply NumFacts.neq_by_eqb; reflexivity.
Qed.

Lemma duration_from_flag_before_transition_witness :
  In (event 60 (silence 960) false false true 0 60)
     (snd (writes (fresh 0) [voice 960 ++ silence 960 ++ [x00]]))
  /\ speech_duration (speech (event 60 (silence 960) false false true 0 60))
     = (60 - 0)%float.
Proof.
  assert (Hin : In (event 60 (silence 960) false false true 0 60)
                   (snd (writes (fresh 0)
                           [voice 960 ++ silence 960 ++ [x00]])))
    by (vm_compute; right; left; reflexivity).
  split; [exact Hin|].
  destruct (@duration_from_flag_before_transition _ _ _ _ _ Hin)
    as (_ & _ & _ & H & _).
  apply H. reflexivity.
Defined.

Lemma startTime_on_transition_frames_witness :
  VADStream_new (options8000 0) = Return (fresh 0)
  /\ snd (writes (fresh 0) [silence 960 ++ voice 960; silence 960 ++ [x00]])
     = [event 0 (silence 960) false false false 0 0;
        event 60 (voice 960) true true false 60 0]
       ++ event 120 (silence 960) false false true 60 60 :: []
  /\ open_segment [event 0 (silence 960) false false false 0 0;
                   event 60 (voice 960) true true false 60 0]
     = Some 60%float.
Proof.
  assert (Hnew : VADStream_new (options8000 0) = Return (fresh 0))
    by (apply fresh_is_constructed; reflexivity).
  assert (Hevs : snd (writes (fresh 0)
                        [silence 960 ++ voice 960; silence 960 ++ [x00]])
                 = [event 0 (silence 960) false false false 0 0;
                    event 60 (voice 960) true true false 60 0]
                   ++ event 120 (silence 960) false false true 60 60 :: [])
    by (vm_compute; reflexivity).
  split; [exact Hnew|]. split; [exact Hevs|].
  destruct (@startTime_on_transition_frames _ _ _ _ _ _ _ _ Hnew Hevs)
    as (s & frame & _ & _ & _ & Hend).
  destruct (Hend eq_refl) as (_ & _ & H). exact H.
Defined.

Lemma startTime_off_transition_frames_witness :
  VADStream_new (options8000 1000) = Return (fresh 1000)
  /\ snd (writes (fresh 1000) [silence 960 ++ voice 960; voice 960 ++ [x00]])
     = [event 0 (silence 960) false false false 0 0;
        event 60 (voice 960) true true false 60 0]
       ++ event 120 (voice 960) true false false 60 60 :: []
  /\ open_segment [event 0 (silence 960) false false false 0 0;
                   event 60 (voice 960) true true false 60 0]
     = Some 60%float.
Proof.
  assert (Hnew : VADStream_new (options8000 1000) = Return (fresh 1000))
    by (apply fresh_is_constructed; reflexivity).
  assert (Hevs : snd (writes (fresh 1000)
                        [silence 960 ++ voice 960; voice 960 ++ [x00]])
                 = [event 0 (silence 960) false false false 0 0;
                    event 60 (voice 960) true true false 60 0]
                   ++ event 120 (voice 960) true false false 60 60 :: [])
    by (vm_compute; reflexivity).
  split; [exact Hnew|]. split; [exact Hevs|].
  destruct (@startTime_off_transition_frames _ _ _ _ _ _ _ _ Hnew Hevs)
    as (s & frame & _ & _ & Hmid & _).
  destruct (Hmid eq_refl eq_refl) as (_ & _ & _ & H). exact H.
Defined.

Lemma frames_and_leftover_are_the_input_witness :
  VADStream_new (options8000 1000) = Return (fresh 1000)
  /\ buffer (fst (writes (fresh 1000) [voice 500; voice 460 ++ silence 10]))
     = Some (silence 10)
  /\ concat (map audioData
               (snd (writes (fresh 1000) [voice 500; voice 460 ++ silence 10])))
       ++ silence 10
     = concat [voice 500; voice 460 ++ silence 10].
Proof.
  assert (Hnew : VADStream_new (options8000 1000) = Return (fresh 1000))
    by (apply fresh_is_constructed; reflexivity).
  assert (Hbuf : buffer (fst (writes (fresh 1000)
                                [voice 500; voice 460 ++ silence 10]))
                 = Some (silence 10))
    by (vm_compute; reflexivity).
  split; [exact Hnew|]. split; [exact Hbuf|].
  exact (proj2 (@frames_and_leftover_are_the_input _ _ _ _ _ Hnew) _ Hbuf).
Defined.

Lemma chunk_boundary_independence_witness :
  VADStream_new (options8000 1000) = Return (fresh 1000)
  /\ concat [voice 500; voice 460 ++ silence 10]
     = concat [voice 960 ++ silence 10]
  /\ snd (writes (fresh 1000) [voice 500; voice 460 ++ silence 10])
     = snd (writes (fresh 1000) [voice 960 ++ silence 10]).
Proof.
  assert (Hnew : VADStream_new (options8000 1000) = Return (fresh 1000))
    by (apply fresh_is_constructed; reflexivity).
  assert (Hcat : concat [voice 500; voice 460 ++ silence 10]
                 = concat [voice 960 ++ silence 10])
    by (vm_compute; reflexivity).
  split; [exact Hnew|]. split; [exact Hcat|].
  exact (proj1 (@chunk_boundary_independence _ _ _ _ _ _ Hnew Hcat)).
Defined.

Lemma classification_error_is_fatal_witness :
  0 < chunkLengthBytes (fresh 1000)
  /\ buffer (fresh 1000) = Some []
  /\ fst (split_frames (chunkLengthBytes (fresh 1000))
            ([] ++ silence 960 ++ faulty 960 ++ voice 960 ++ [x00]))
     = [silence 960] ++ faulty 960 :: [voice 960]
  /\ result (feed (fresh 1000) [silence 960]) = Fulfilled tt
  /\ classification (final (feed (fresh 1000) [silence 960])) (faulty 960)
     = Some ERROR
  /\ map audioData
       (pushed (_transform (fresh 1000)
                  (silence 960 ++ faulty 960 ++ voice 960 ++ [x00])))
     = [silence 960]
  /\ buffer (final (_transform (fresh 1000)
                      (silence 960 ++ faulty 960 ++ voice 960 ++ [x00])))
     = None.
Proof.
  assert (HL : 0 < chunkLengthBytes (fresh 1000)) by (vm_compute; lia).
  assert (Hb : buffer (fresh 1000) = Some []) by reflexivity.
  assert (Hs : fst (split_frames (chunkLengthBytes (fresh 1000))
                      ([] ++ silence 960 ++ faulty 960 ++ voice 960 ++ [x00]))
               = [silence 960] ++ faulty 960 :: [voice 960])
    by (vm_compute; reflexivity).
  assert (Hf : result (feed (fresh 1000) [silence 960]) = Fulfilled tt)
    by (vm_compute; reflexivity).
  assert (He : classification (final (feed (fresh 1000) [silence 960]))
                 (faulty 960) = Some ERROR)
    by (vm_compute; reflexivity).
  repeat (split; [assumption|]).
  destruct (@classification_error_is_fatal _ _ _ _ _ _ _ _ HL Hb Hs Hf He)
    as (_ & H1 & _ & H2 & _).
  split; [exact H1|exact H2].
Defined.

(** (C6, the claim as written fails) A mode of 1.5 is none of the four modes,
    and the stream is constructed all the same. *)
Lemma fractional_mode_constructs :
  ~ Config.valid (Options.make (JSNumber 1.5) JSUndefined JSUndefined)
  /\ exists s,
       VADStream_new (Options.make (JSNumber 1.5) JSUndefined JSUndefined)
       = Return s.
Proof.
  split.
  - intros ([H|[H|[H|[H|H]]]] & _); cbn in H; try discriminate;
      apply JSNumber_inj in H; revert H;
      apply NumFacts.neq_by_eqb; reflexivity.
  - eexists. vm_compute. reflexivity.
Qed.

Lemma construction_throws_iff_not_accepted_witness :
  native_ready
  /\ exists s,
       VADStream_new (Options.make (JSNumber 3) (JSNumber 48000) (JSNumber 0))
       = Return s.
Proof.
  assert (Hn : native_ready).
  { exists 736, 0, 0. repeat split. }
  split; [exact Hn|].
  apply (proj2 (@construction_throws_iff_not_accepted _ _
                  (Options.make (JSNumber 3) (JSNumber 48000) (JSNumber 0))
                  Hn)).
  repeat split; cbn.
  - right; right; right; right; reflexivity.
  - right; right; right; right; reflexivity.
  - right. exists 0%float. split; reflexivity.
Defined.


(** (C2, the code at an input on which it departs from the claim) Two binary32
    values, 1.0 and 2.0, in eight bytes: the answer is thirty-two bytes, eight
    binary32 values, with 1.0 first, 2.0 fifth and zeros in between. *)
Theorem from32toFloatBuffer_spreads_the_samples :
  from32toFloatBuffer [x00; x00; x80; x3f; x00; x00; x00; x40]
  = Return ([x00; x00; x80; x3f] ++ repeat x00 12
            ++ [x00; x00; x00; x40] ++ repeat x00 12).
Proof. vm_compute. reflexivity. Qed.

(** (C3, the code at an input on which it departs from the claim) A write of
    exactly one frame's worth of bytes, 960 at 8000 Hz, to a fresh stream: no
    event is pushed and all 960 bytes stay in the buffer. *)
Theorem whole_frame_is_held_back :
  chunkLengthBytes (fresh 1000) = 960
  /\ run (options8000 1000) [silence 960] = Some ([], Some (silence 960)).
Proof. split; vm_compute; reflexivity. Qed.

End Runs.

(** * Further properties of the code *)

(** ** Loops that fill a buffer *)

Section FillFacts.

Context {A B C : Type}.

Lemma foldM_ext (body1 body2 : A -> B -> completion A) (l : list B) :
  (forall a b, In b l -> body1 a b = body2 a b) ->
  forall a, foldM body1 l a = foldM body2 l a.
Proof.
  induction l as [|b l IH]; intros H a; simpl.
  - reflexivity.
  - rewrite (H a b) by now left.
    destruct (body2 a b); simpl; [|reflexivity].
    apply IH. intros a1 b1 Hin. apply H. now right.
Qed.

Lemma foldM_map (body : A -> B -> completion A) (g : C -> B) (l : list C) :
  forall a, foldM body (map g l) a = foldM (fun a c => body a (g c)) l a.
Proof.
  induction l as [|c l IH]; intros a; simpl.
  - reflexivity.
  - destruct (body a (g c)); simpl; [apply IH|reflexivity].
Qed.

Lemma foldM_app (body : A -> B -> completion A) (l1 l2 : list B) :
  forall a,
    foldM body (l1 ++ l2) a = bind (foldM body l1 a) (foldM body l2).
Proof.
  induction l1 as [|b l1 IH]; intros a; simpl.
  - reflexivity.
  - destruct (body a b); simpl; [apply IH|reflexivity].
Qed.

End FillFacts.

Lemma skipn_repeat {T : Type} (x : T) (k n : nat) :
  skipn k (repeat x n) = repeat x (n - k).
Proof.
  revert n. induction k as [|k IH]; intros n.
  - now rewrite Nat.sub_0_r.
  - destruct n; simpl; [reflexivity|apply IH].
Qed.

Section BlockFacts.

(** Blocks of [w] bytes, one per index, each followed by [pad] zero bytes. *)
Variables (w pad : nat) (block : nat -> list byte).
Hypothesis block_length : forall k, length (block k) = w.

Let padded (k : nat) : list byte := block k ++ repeat x00 pad.

Lemma padded_blocks_length (j n : nat) :
  length (concat (map padded (seq j n))) = n * (w + pad).
Proof.
  revert j. induction n as [|n IH]; intros j; simpl.
  - reflexivity.
  - unfold padded at 1.
    rewrite !length_app, repeat_length, block_length, IH. lia.
Qed.

(** Writing block [k] at offset [k * (w + pad)] of a zeroed buffer, for the
    indices in order, lays the padded blocks out one after the other. *)
Lemma fill_blocks (n : nat) : forall (j : nat) (done : Buffer),
  length done = j * (w + pad) ->
  foldM (fun fd k => Buf.write_bytes fd (k * (w + pad)) (block k))
        (seq j n) (done ++ repeat x00 (n * (w + pad)))
  = Return (done ++ concat (map padded (seq j n))).
Proof.
  induction n as [|n IH]; intros j done Hdone; simpl.
  - reflexivity.
  - unfold Buf.write_bytes.
    rewrite length_app, repeat_length, block_length, Hdone.
    assert ((j * (w + pad) + w <=? j * (w + pad) + (w + pad + n * (w + pad)))
            = true) as -> by (apply Nat.leb_le; lia).
    cbn [bind].
    rewrite firstn_app, Hdone, Nat.sub_diag, firstn_all2 by lia.
    cbn [firstn]. rewrite app_nil_r.
    rewrite skipn_app, Hdone, skipn_all2 by lia. cbn [app].
    replace (j * (w + pad) + w - j * (w + pad)) with w by lia.
    rewrite skipn_repeat.
    replace (w + pad + n * (w + pad) - w) with (pad + n * (w + pad)) by lia.
    rewrite repeat_app.
    replace (done ++ block j ++ repeat x00 pad ++ repeat x00 (n * (w + pad)))
      with ((done ++ padded j) ++ repeat x00 (n * (w + pad)))
      by (unfold padded; now rewrite <- !app_assoc).
    rewrite IH.
    + now rewrite <- app_assoc.
    + unfold padded. rewrite !length_app, repeat_length, block_length. lia.
Qed.

(** The block at index [k] of such a layout. *)
Lemma padded_blocks_nth (n k : nat) :
  k < n ->
  firstn w (skipn (k * (w + pad)) (concat (map padded (seq 0 n))))
  = block k.
Proof.
  intros Hk.
  replace n with (k + S (n - S k)) by lia.
  rewrite seq_app, map_app, concat_app. cbn [seq map concat plus].
  rewrite skipn_app, padded_blocks_length, Nat.sub_diag.
  rewrite skipn_all2 by (rewrite padded_blocks_length; lia).
  cbn [skipn app]. unfold padded at 1.
  rewrite <- app_assoc, firstn_app, block_length, Nat.sub_diag.
  rewrite firstn_all2 by (rewrite block_length; lia).
  cbn [firstn]. now rewrite app_nil_r.
Qed.

End BlockFacts.

(** ** What the converters answer *)

Lemma loop_indices_whole (m r : nat) :
  0 < r -> loop_indices (m * r) r = map (fun k => k * r) (seq 0 m).
Proof.
  intros Hr. unfold loop_indices. f_equal. f_equal.
  replace (m * r + r - 1) with (m * r + (r - 1)) by lia.
  rewrite Nat.div_add_l by lia. rewrite Nat.div_small by lia. lia.
Qed.

Lemma loop_indices_partial (m r q : nat) :
  0 < q < r ->
  loop_indices (m * r + q) r = map (fun k => k * r) (seq 0 m) ++ [m * r].
Proof.
  intros Hq. unfold loop_indices.
  replace (m * r + q + r - 1) with ((m + 1) * r + (q - 1)) by lia.
  rewrite Nat.div_add_l by lia. rewrite Nat.div_small by lia.
  rewrite Nat.add_0_r, seq_app, map_app. reflexivity.
Qed.

(** A loop over whole groups of [r] bytes whose body writes a four-byte block
    per group, [pad] bytes apart, into a zeroed buffer. *)
Lemma loop_fills (body : Buffer -> nat -> completion Buffer)
  (r pad m : nat) (block : nat -> list byte) :
  0 < r ->
  (forall k, length (block k) = 4) ->
  (forall fd k, k < m ->
     body fd (k * r) = Buf.write_bytes fd (k * (4 + pad)) (block k)) ->
  foldM body (loop_indices (m * r) r) (Buf.alloc (m * (4 + pad)))
  = Return (concat (map (fun k => block k ++ repeat x00 pad) (seq 0 m))).
Proof.
  intros Hr Hlen Hbody.
  rewrite loop_indices_whole, foldM_map by assumption.
  rewrite foldM_ext
    with (body2 := fun fd k => Buf.write_bytes fd (k * (4 + pad)) (block k))
    by (intros fd k Hin; apply Hbody; apply in_seq in Hin; lia).
  unfold Buf.alloc.
  apply (fill_blocks pad block Hlen m 0 []). reflexivity.
Qed.

(** A loop over a buffer that ends inside a group throws at that group, when
    the groups before it go through. *)
Lemma loop_throws_at_end {A : Type} (body : A -> nat -> completion A)
  (P : A -> Prop) (r m q : nat) (e : js_error) (a0 : A) :
  0 < q < r ->
  P a0 ->
  (forall a k, k < m -> P a -> exists a', body a (k * r) = Return a' /\ P a') ->
  (forall a, P a -> body a (m * r) = Throw e) ->
  foldM body (loop_indices (m * r + q) r) a0 = Throw e.
Proof.
  intros Hq H0 Hstep Hlast.
  rewrite loop_indices_partial, foldM_app by assumption.
  destruct (foldM_invariant P body (map (fun k => k * r) (seq 0 m)))
    with (a := a0) as (a' & -> & Ha'); [|assumption|].
  - intros a i Hin Ha. apply in_map_iff in Hin as (k & <- & Hk).
    apply in_seq in Hk. apply Hstep; [lia|assumption].
  - cbn [bind foldM]. now rewrite Hlast.
Qed.

Lemma byte_to_Z_range (b : byte) : (0 <= Buf.byte_to_Z b < 256)%Z.
Proof. destruct b; cbv; split; congruence. Qed.

Lemma le_value_range (bs : list byte) :
  (0 <= Buf.le_value bs < 256 ^ Z.of_nat (length bs))%Z.
Proof.
  induction bs as [|b bs IH].
  - simpl. lia.
  - cbn [Buf.le_value length]. rewrite Nat2Z.inj_succ, Z.pow_succ_r by lia.
    pose proof (byte_to_Z_range b). lia.
Qed.

Lemma sample16_range (buffer : Buffer) (k : nat) :
  (-32768 <= sample16 buffer k < 32768)%Z.
Proof.
  unfold sample16.
  pose proof (le_value_range (firstn 2 (skipn (k * 2) buffer))) as H.
  assert (256 ^ Z.of_nat (length (firstn 2 (skipn (k * 2) buffer)))
          <= 256 ^ 2)%Z
    by (apply Z.pow_le_mono_r; [lia|rewrite length_firstn; lia]).
  destruct (Buf.le_value _ <? 32768)%Z eqn:E;
    [apply Z.ltb_lt in E|apply Z.ltb_ge in E]; lia.
Qed.

Lemma exact_from_spec (n : nat) : forall z0 z : Z,
  exact_from n z0 = true ->
  (z0 <= z < z0 + Z.of_nat n)%Z ->
  Buf.float_of_bits32
    (Buf.le_value (float32_bytes (Num.of_Z z / 32768)%float))
  = (Num.of_Z z / 32768)%float.
Proof.
  induction n as [|n IH]; intros z0 z H Hz; [lia|].
  cbn [exact_from] in H. apply andb_true_iff in H as [H1 H2].
  destruct (Z.eq_dec z z0) as [->|Hne].
  - now apply FloatAxioms.Leibniz.eqb_spec.
  - apply (IH (z0 + 1)%Z); [assumption|lia].
Qed.

(** Every 16-bit sample divided by 32768 is a binary32 value: written by
    [writeFloatLE] and read back by [readFloatLE] it is the same number. *)
Lemma sample_is_binary32 (z : Z) :
  (-32768 <= z < 32768)%Z ->
  Buf.float_of_bits32
    (Buf.le_value (float32_bytes (Num.of_Z z / 32768)%float))
  = (Num.of_Z z / 32768)%float.
Proof.
  intros Hz. apply (@exact_from_spec (256 * 256) (-32768)%Z).
  - vm_compute. reflexivity.
  - lia.
Qed.

Lemma from16toFloatBuffer_layout (buffer : Buffer) :
  Nat.even (length buffer) = true ->
  from16toFloatBuffer buffer
  = Return (concat (map (fun k => float32_bytes
                                    (Num.of_Z (sample16 buffer k) / 32768)%float
                                  ++ repeat x00 0)
                        (seq 0 (length buffer / 2)))).
Proof.
  intros Heven. apply Nat.even_spec in Heven as (m & Hm).
  unfold from16toFloatBuffer. rewrite Hm.
  replace (2 * m) with (m * 2) by lia.
  rewrite Nat.div_mul by lia.
  replace (m * 2 * 2) with (m * (4 + 0)) by lia.
  apply loop_fills; [lia|intros; apply BufFacts.le_bytes_length|].
  intros fd k Hk. unfold Buf.readInt16LE.
  rewrite BufFacts.read_bytes_ok by lia. cbn [bind].
  unfold Buf.writeFloatLE, float32_bytes, sample16.
  f_equal. lia.
Qed.

(** (X1) On a buffer of whole 16-bit samples [from16toFloatBuffer] answers one
    binary32 value per sample, in order, and the value for the sample [s] is
    exactly [s / 32768]: nothing is rounded. *)
Theorem from16toFloatBuffer_samples (buffer : Buffer) :
  Nat.even (length buffer) = true ->
  exists floatData,
    from16toFloatBuffer buffer = Return floatData
    /\ length floatData = length buffer * 2
    /\ forall k, k < length buffer / 2 ->
         Buf.readInt16LE buffer (k * 2) = Return (sample16 buffer k)
         /\ Buf.readFloatLE floatData (k * 4)
            = Return (Num.of_Z (sample16 buffer k) / 32768)%float.
Proof.
  intros Heven. rewrite (from16toFloatBuffer_layout buffer Heven).
  apply Nat.even_spec in Heven as (m & Hm).
  eexists. split; [reflexivity|].
  assert (Hlen : forall k, length (float32_bytes
                                     (Num.of_Z (sample16 buffer k) / 32768)%float)
                           = 4)
    by (intros; apply BufFacts.le_bytes_length).
  rewrite (padded_blocks_length 0 _ Hlen), Hm.
  replace (2 * m) with (m * 2) by lia. rewrite Nat.div_mul by lia.
  split; [lia|].
  intros k Hk. split.
  - unfold Buf.readInt16LE. rewrite BufFacts.read_bytes_ok by lia.
    reflexivity.
  - unfold Buf.readFloatLE.
    rewrite BufFacts.read_bytes_ok
      by (rewrite (padded_blocks_length 0 _ Hlen); lia).
    cbn [bind].
    replace (k * 4) with (k * (4 + 0)) by lia.
    rewrite (padded_blocks_nth 0 _ Hlen) by assumption.
    f_equal. apply sample_is_binary32, sample16_range.
Qed.

(** (X2) On a buffer with an odd number of bytes [from16toFloatBuffer] throws
    a RangeError: the read of the last sample runs past the end. *)
Theorem from16toFloatBuffer_odd_throws (buffer : Buffer) :
  Nat.odd (length buffer) = true ->
  exists msg, from16toFloatBuffer buffer = Throw (RangeError msg).
Proof.
  intros Hodd. apply Nat.odd_spec in Hodd as (m & Hm).
  eexists. unfold from16toFloatBuffer. rewrite Hm.
  replace (2 * m + 1) with (m * 2 + 1) by lia.
  apply loop_throws_at_end
    with (P := fun fd : Buffer => length fd = (m * 2 + 1) * 2);
    [lia|apply BufFacts.alloc_length| |].
  - intros fd k Hk Hfd. unfold Buf.readInt16LE.
    rewrite BufFacts.read_bytes_ok by lia. cbn [bind].
    destruct (BufFacts.writeFloatLE_ok fd
                (Num.of_Z
                   (let u := Buf.le_value (firstn 2 (skipn (k * 2) buffer)) in
                    if (u <? 32768)%Z then u else (u - 65536)%Z) / 32768)%float
                (k * 2 * 2)) as (fd' & Hw & Hl); [lia|].
    exists fd'. split; [exact Hw|congruence].
  - intros fd _. unfold Buf.readInt16LE, Buf.read_bytes.
    assert ((m * 2 + 2 <=? length buffer) = false) as ->
        by (apply Nat.leb_gt; lia).
    reflexivity.
Qed.

(** (X3) On a buffer of whole 32-bit values none of which is NaN,
    [from32toFloatBuffer] answers four bytes per input byte: the [k]-th value,
    read and written back as binary32, at byte [16 * k], each followed by
    twelve zero bytes. *)
Theorem from32toFloatBuffer_layout (buffer : Buffer) :
  length buffer mod 4 = 0 ->
  (forall k, k < length buffer / 4 ->
     PrimFloat.is_nan (float32_at buffer k) = false) ->
  from32toFloatBuffer buffer
  = Return (concat (map (fun k => float32_bytes (float32_at buffer k)
                                  ++ repeat x00 12)
                        (seq 0 (length buffer / 4)))).
Proof.
  intros Hmod _. apply Nat.Div0.div_exact in Hmod.
  set (m := length buffer / 4) in *.
  unfold from32toFloatBuffer. rewrite Hmod.
  replace (4 * m) with (m * 4) by lia.
  replace (m * 4 * 4) with (m * (4 + 12)) by lia.
  apply loop_fills; [lia|intros; apply BufFacts.le_bytes_length|].
  intros fd k Hk. unfold Buf.readFloatLE.
  rewrite BufFacts.read_bytes_ok by lia. cbn [bind].
  unfold Buf.writeFloatLE, float32_bytes, float32_at.
  f_equal. lia.
Qed.

(** (X4) On a buffer whose length is not a multiple of 4
    [from32toFloatBuffer] throws a RangeError: the read of the last value runs
    past the end. *)
Theorem from32toFloatBuffer_partial_throws (buffer : Buffer) :
  length buffer mod 4 <> 0 ->
  exists msg, from32toFloatBuffer buffer = Throw (RangeError msg).
Proof.
  intros Hmod.
  pose proof (Nat.div_mod_eq (length buffer) 4) as Hdiv.
  pose proof (Nat.mod_upper_bound (length buffer) 4 ltac:(lia)) as Hq.
  set (m := length buffer / 4) in *. set (q := length buffer mod 4) in *.
  eexists. unfold from32toFloatBuffer. rewrite Hdiv.
  replace (4 * m + q) with (m * 4 + q) by lia.
  apply loop_throws_at_end
    with (P := fun fd : Buffer => length fd = (m * 4 + q) * 4);
    [lia|apply BufFacts.alloc_length| |].
  - intros fd k Hk Hfd. unfold Buf.readFloatLE.
    rewrite BufFacts.read_bytes_ok by lia. cbn [bind].
    destruct (BufFacts.writeFloatLE_ok fd
                (Buf.float_of_bits32
                   (Buf.le_value (firstn 4 (skipn (k * 4) buffer))))
                (k * 4 * 4)) as (fd' & Hw & Hl); [lia|].
    exists fd'. split; [exact Hw|congruence].
  - intros fd _. unfold Buf.readFloatLE, Buf.read_bytes.
    assert ((m * 4 + 4 <=? length buffer) = false) as ->
        by (apply Nat.leb_gt; lia).
    reflexivity.
Qed.

(** ** More on construction *)

Lemma JSNumber_eq (x y : float) : JSNumber x = JSNumber y -> x = y.
Proof.
  intros H.
  exact (f_equal (fun v => match v with JSNumber z => z | _ => x end) H).
Qed.

Section MoreConstruction.

Context {vad_t : Type} {binding : Binding vad_t}.

(** (X5) Exact frame sizing.  A constructed stream has one of the four sample
    rates; its frame length is a whole number of bytes, 960, 1920, 3840 or
    5760 in that order, which is 60 ms of 16-bit samples: the time of one byte
    times the frame length is exactly 60. *)
Theorem frame_is_60_ms (o : Options.t) (s : VADStream) :
  VADStream_new o = Return s ->
  (audioFrequency s = 8000%float /\ chunkLengthBytes s = 960
   \/ audioFrequency s = 16000%float /\ chunkLengthBytes s = 960 * 2
   \/ audioFrequency s = 32000%float /\ chunkLengthBytes s = 960 * 4
   \/ audioFrequency s = 48000%float /\ chunkLengthBytes s = 960 * 6)
  /\ chunkLength s = Num.of_nat (chunkLengthBytes s)
  /\ (timeMultiplier s * chunkLength s)%float = 60%float
  /\ with_default (Options.audioFrequency o) (JSNumber 16000)
     = JSNumber (audioFrequency s).
Proof.
  unfold VADStream_new.
  destruct (VAD_new _) as [v|e]; cbn [bind]; [|discriminate].
  destruct (with_default (Options.audioFrequency o) (JSNumber 16000))
    as [| |b|f|str|]; try discriminate.
  destruct (PrimFloat.eqb f 8000 || PrimFloat.eqb f 16000
            || PrimFloat.eqb f 32000 || PrimFloat.eqb f 48000) eqn:Ef;
    cbn [negb]; [|discriminate].
  destruct (with_default (Options.debounceTime o) (JSNumber 1000))
    as [| |b|d|str|]; try discriminate.
  destruct (PrimFloat.ltb d 0); [discriminate|].
  intros [= <-]. unfold chunkLengthBytes. stream_simpl.
  apply rate_test in Ef.
  destruct Ef as [->|[->|[->| ->]]];
    (split; [|split; [|split]]); try reflexivity;
    [left|right; left|right; right; left|right; right; right];
    split; vm_compute; reflexivity.
Qed.

(** (X6) Which error the constructor throws, with the native side allocating
    and the defaults taken for the options left out.  A mode that is not a
    number in range is reported first, as [Error "Invalid mode"]; then a
    sample rate that is not a number, as a TypeError, or not one of the four
    rates, as an Error; then a debounce time that is not a number, as a
    TypeError, or negative, as an Error. *)
Theorem construction_errors (o : Options.t) :
  native_ready ->
  let rate := with_default (Options.audioFrequency o) (JSNumber 16000) in
  let debounce := with_default (Options.debounceTime o) (JSNumber 1000) in
  (~ Config.mode_in_range (Options.mode o) ->
   VADStream_new o = Throw (Error "Invalid mode"))
  /\ (Config.mode_in_range (Options.mode o) ->
      (forall f, rate <> JSNumber f) ->
      VADStream_new o = Throw (TypeError "audioFrequency must be a number"))
  /\ (Config.mode_in_range (Options.mode o) ->
      (exists f, rate = JSNumber f)
      /\ ~ Config.rate_listed (Options.audioFrequency o) ->
      VADStream_new o
      = Throw (Error "audioFrequency must be 8000, 16000, 32000 or 48000"))
  /\ (Config.mode_in_range (Options.mode o) ->
      Config.rate_listed (Options.audioFrequency o) ->
      (forall d, debounce <> JSNumber d) ->
      VADStream_new o = Throw (TypeError "debounceTime must be a number"))
  /\ (Config.mode_in_range (Options.mode o) ->
      Config.rate_listed (Options.audioFrequency o) ->
      (exists d, debounce = JSNumber d /\ PrimFloat.ltb d 0 = true) ->
      VADStream_new o = Throw (Error "debounceTime must be greater than 0")).
Proof.
  intros Hn rate debounce.
  pose proof (VAD_new_accepts (Options.mode o) Hn) as Hmode.
  assert (Hbad : ~ Config.mode_in_range (Options.mode o) ->
                 VAD_new (with_default (Options.mode o) (JSNumber Mode.NORMAL))
                 = Throw (Error "Invalid mode")).
  { intros Hnot. destruct Hn as (size & v & v' & Hs & Ha & Hi).
    unfold VAD_new in *. rewrite Hs, Ha, Hi in *.
    destruct (with_default (Options.mode o) (JSNumber Mode.NORMAL))
      as [| |b|m|str|]; try reflexivity.
    destruct (negb _); [reflexivity|].
    exfalso. apply Hnot, Hmode. eauto. }
  assert (Hrate : forall f, rate = JSNumber f ->
                    Config.rate_listed (Options.audioFrequency o)
                    <-> (PrimFloat.eqb f 8000 || PrimFloat.eqb f 16000
                         || PrimFloat.eqb f 32000 || PrimFloat.eqb f 48000)
                        = true).
  { intros f Hf. rewrite rate_test. subst rate.
    unfold Config.rate_listed.
    destruct (Options.audioFrequency o) as [| |b|x|str|];
      cbn [with_default] in Hf; try discriminate;
      apply JSNumber_eq in Hf; subst f.
    - split; auto.
    - split.
      + intros [H|[H|[H|[H|H]]]]; try discriminate;
          apply JSNumber_eq in H; auto.
      + intros [->|[->|[->| ->]]]; auto 6. }
  unfold VADStream_new. fold rate. fold debounce.
  split; [|split; [|split; [|split]]].
  - intros Hnot. now rewrite (Hbad Hnot).
  - intros Hin Hnum. apply Hmode in Hin as [v ->]. cbn [bind].
    destruct rate as [| |b|f|str|]; try reflexivity.
    exfalso. now apply (Hnum f).
  - intros Hin ([f Hf] & Hnot). apply Hmode in Hin as [v ->]. cbn [bind].
    rewrite Hf.
    destruct (PrimFloat.eqb f 8000 || PrimFloat.eqb f 16000
              || PrimFloat.eqb f 32000 || PrimFloat.eqb f 48000) eqn:E;
      [|reflexivity].
    exfalso. apply Hnot. now apply (Hrate f Hf).
  - intros Hin Hlisted Hnum. apply Hmode in Hin as [v ->]. cbn [bind].
    destruct rate as [| |b|f|str|] eqn:Er;
      try (exfalso; destruct Hlisted as [H|[H|[H|[H|H]]]];
           subst rate; rewrite H in Er; discriminate).
    rewrite (proj1 (Hrate f eq_refl) Hlisted). cbn [negb].
    destruct debounce as [| |b|d|str|]; try reflexivity.
    exfalso. now apply (Hnum d).
  - intros Hin Hlisted (d & Hd & Hneg). apply Hmode in Hin as [v ->].
    cbn [bind].
    destruct rate as [| |b|f|str|] eqn:Er;
      try (exfalso; destruct Hlisted as [H|[H|[H|[H|H]]]];
           subst rate; rewrite H in Er; discriminate).
    rewrite (proj1 (Hrate f eq_refl) Hlisted). cbn [negb].
    now rewrite Hd, Hneg.
Qed.

End MoreConstruction.

(** ** More on frames, events and writes *)

Section MoreStream.

Context {vad_t : Type} {binding : Binding vad_t}.

Implicit Types (s : @VADStream vad_t) (chunk frame : Buffer)
  (frames chunks : list Buffer) (ev : FrameEvent).

Lemma _processAudio_byteCount s chunk :
  byteCount (final (_processAudio s chunk)) = byteCount s + length chunk.
Proof. frame_cases s chunk; reflexivity. Qed.

(** The only rejection of [_processAudio] is the ERROR of the classifier. *)
Lemma _processAudio_rejected s chunk (e : js_error) :
  result (_processAudio s chunk) = Rejected e -> e = Error "Error in VAD".
Proof. frame_cases s chunk; intros H; try discriminate; congruence. Qed.

Lemma _processAudio_fulfilled_tt s chunk (u : unit) :
  result (_processAudio s chunk) = Fulfilled u -> u = tt.
Proof. now destruct u. Qed.

Lemma feed_rejected s frames (e : js_error) :
  Forall (fun frame => Nat.even (length frame) = true) frames ->
  result (feed s frames) = Rejected e -> e = Error "Error in VAD".
Proof.
  intros Hall. revert s.
  induction Hall as [|frame frames Hf Hall IH]; intros s; simpl.
  - discriminate.
  - destruct (result (_processAudio s frame)) eqn:E; simpl.
    + pose proof (feed_not_thrown (final (_processAudio s frame)) Hall) as Hnt.
      destruct (result (feed (final (_processAudio s frame)) frames)) eqn:E';
        try discriminate.
      * intros [= <-]. now apply (IH _ E').
      * exfalso. now apply (Hnt e0).
    + rewrite E. intros [= <-]. now apply (_processAudio_rejected s frame).
    + rewrite E. discriminate.
    + rewrite E. discriminate.
Qed.

Lemma feed_timeMultiplier s frames :
  timeMultiplier (final (feed s frames)) = timeMultiplier s.
Proof.
  revert s. induction frames as [|frame frames IH]; intros s; simpl.
  - reflexivity.
  - destruct (result (_processAudio s frame)) eqn:E; simpl;
      try apply _processAudio_config.
    rewrite IH. apply _processAudio_config.
Qed.

(** When all the frames went through, the byte count grew by their
    lengths. *)
Lemma feed_byteCount (L : nat) frames : forall s,
  Forall (fun frame => length frame = L) frames ->
  (exists u, result (feed s frames) = Fulfilled u) ->
  byteCount (final (feed s frames)) = byteCount s + length frames * L
  /\ length (pushed (feed s frames)) = length frames.
Proof.
  induction frames as [|frame frames IH]; intros s Hall [u Hu]; simpl in *.
  - split; [lia|reflexivity].
  - inversion Hall as [|? ? Hf Hall']; subst.
    pose proof (_processAudio_pushed s frame) as Hp.
    destruct (result (_processAudio s frame)) eqn:E; simpl in *;
      try (rewrite E in Hu; discriminate).
    destruct Hp as (sp & ->).
    destruct (IH (final (_processAudio s frame)) Hall') as [H1 H2].
    { destruct (result (feed (final (_processAudio s frame)) frames));
        try discriminate. eauto. }
    rewrite H1, _processAudio_byteCount. cbn [length app]. split; lia.
Qed.

(** The event at position [length before] of a run of frames of [L] bytes:
    its time is the time of one byte times the bytes before it. *)
Lemma feed_times (L : nat) frames :
  forall s (before later : list FrameEvent) ev,
    Forall (fun frame => length frame = L) frames ->
    pushed (feed s frames) = before ++ ev :: later ->
    time ev
    = (timeMultiplier s
       * Num.of_nat (byteCount s + length before * L))%float.
Proof.
  induction frames as [|frame frames IH];
    intros s before later ev Hall Hp; cbn [feed pushed] in Hp.
  - now destruct before.
  - inversion Hall as [|? ? Hf Hall']; subst.
    pose proof (_processAudio_pushed s frame) as Hpushed.
    destruct (result (_processAudio s frame)) eqn:Er;
      try (rewrite Hpushed in Hp; now destruct before);
      try contradiction.
    destruct Hpushed as (sp & Hsp). cbn [pushed] in Hp. rewrite Hsp in Hp.
    destruct before as [|ev1 before]; cbn [app] in Hp;
      injection Hp as Hev Hrest.
    + subst ev. cbn [time length]. unfold frame_time.
      now rewrite Nat.mul_0_l, Nat.add_0_r.
    + rewrite (IH _ _ _ _ Hall' Hrest).
      rewrite (proj1 (proj2 (proj2 (proj2 (_processAudio_config s frame))))).
      rewrite _processAudio_byteCount. cbn [length].
      do 2 f_equal. lia.
Qed.

(** The events of a constructed stream are the events of the frames of all
    the bytes written. *)
Lemma writes_events (o : Options.t) s0 chunks :
  VADStream_new o = Return s0 ->
  let L := chunkLengthBytes s0 in
  let frames := fst (split_frames L (concat chunks)) in
  frames_ok s0
  /\ byteCount s0 = 0
  /\ snd (writes s0 chunks) = pushed (feed s0 frames)
  /\ fst (writes s0 chunks)
     = set_buffer (final (feed s0 frames))
         (match result (feed s0 frames) with
          | Fulfilled _ => Some (snd (split_frames L (concat chunks)))
          | _ => None
          end).
Proof.
  intros Hnew L frames.
  pose proof (VADStream_new_frames_ok o Hnew) as Hok.
  apply VADStream_new_fresh in Hnew as (Hb & _ & _ & Hbc & _).
  rewrite (writes_feed chunks Hok Hb) by (simpl; lia).
  cbn [fst snd app]. auto.
Qed.

End MoreStream.

Lemma concat_length_uniform {T : Type} (L : nat) (l : list (list T)) :
  Forall (fun x => length x = L) l -> length (concat l) = length l * L.
Proof.
  induction 1 as [|x l Hx Hl IH]; simpl; [reflexivity|].
  rewrite length_app, IH, Hx. lia.
Qed.

(** The frame at a position of the frames cut off a buffer is the slice at
    that position. *)
Lemma split_frames_nth (L : nat) (all : Buffer)
  (pre post : list Buffer) (f : Buffer) :
  0 < L ->
  fst (split_frames L all) = pre ++ f :: post ->
  f = Buf.slice all (length pre * L) (length pre * L + L) /\ length f = L.
Proof.
  intros HL Hsplit.
  pose proof (split_frames_concat HL all) as Hcat.
  pose proof (split_frames_length HL all) as Hlen.
  rewrite Hsplit in Hcat, Hlen.
  apply Forall_app in Hlen as [Hpre Hrest].
  inversion Hrest as [|? ? Hf Hpost]; subst.
  split; [|reflexivity].
  rewrite <- Hcat at 1. unfold Buf.slice.
  rewrite concat_app. cbn [concat]. rewrite <- !app_assoc.
  rewrite skipn_app, (concat_length_uniform Hpre), Nat.sub_diag.
  rewrite skipn_all2
    by (rewrite (concat_length_uniform Hpre); apply Nat.le_refl).
  cbn [skipn app].
  rewrite (Nat.add_comm _ (length f)), Nat.add_sub.
  rewrite firstn_app, Nat.sub_diag, firstn_all. cbn [firstn].
  now rewrite app_nil_r.
Qed.

Section StreamExtras.

Context {vad_t : Type} {binding : Binding vad_t}.

Implicit Types (s : @VADStream vad_t) (chunk frame : Buffer)
  (frames chunks : list Buffer) (ev : FrameEvent).

(** (X7) The events of a stream are the frames of its input, in place and in
    time.  The event at position [k] carries the bytes from [k * L] up to
    [k * L + L] of all the bytes written, [L] being the frame length, and its
    time is the time of one byte times [k * L]; this holds however the bytes
    were cut into writes. *)
Theorem event_frame_and_time (o : Options.t) s0 chunks
  (before later : list FrameEvent) ev :
  VADStream_new o = Return s0 ->
  snd (writes s0 chunks) = before ++ ev :: later ->
  let L := chunkLengthBytes s0 in
  let k := length before in
  audioData ev = Buf.slice (concat chunks) (k * L) (k * L + L)
  /\ length (audioData ev) = L
  /\ time ev = (timeMultiplier s0 * Num.of_nat (k * L))%float.
Proof.
  intros Hnew Hevs L k.
  destruct (writes_events o chunks Hnew) as ([HL He] & Hbc & Hpushed & _).
  fold L in HL, He, Hpushed. rewrite Hpushed in Hevs.
  set (frames := fst (split_frames L (concat chunks))) in *.
  destruct (feed_audioData_prefix s0 frames) as (rest & Hrest).
  rewrite Hevs, map_app in Hrest. cbn [map] in Hrest.
  rewrite <- app_assoc in Hrest. cbn [app] in Hrest.
  destruct (split_frames_nth (concat chunks) _ _ _ HL Hrest) as [Ha Hl].
  rewrite length_map in Ha. fold k in Ha.
  split; [exact Ha|]. split; [exact Hl|].
  rewrite (@feed_times _ _ L frames s0 before later ev
             (split_frames_length HL (concat chunks)) Hevs).
  now rewrite Hbc.
Qed.

(** (X8) How many frames a stream has emitted.  After [n] bytes in all, with
    no write failed, there were [(n - 1) / L] events, the byte count stands at
    that many frames, and the buffer holds the rest: at most one frame's
    worth of bytes, and at least one byte as soon as anything was written. *)
Theorem frames_emitted_and_leftover (o : Options.t) s0 chunks
  (remaining : Buffer) :
  VADStream_new o = Return s0 ->
  buffer (fst (writes s0 chunks)) = Some remaining ->
  let L := chunkLengthBytes s0 in
  let n := length (concat chunks) in
  length (snd (writes s0 chunks)) = (n - 1) / L
  /\ byteCount (fst (writes s0 chunks)) = (n - 1) / L * L
  /\ length remaining = n - (n - 1) / L * L
  /\ length remaining <= L
  /\ (0 < n -> 0 < length remaining).
Proof.
  intros Hnew Hbuf L n.
  destruct (writes_events o chunks Hnew) as ([HL He] & Hbc & Hpushed & Hfst).
  fold L in HL, He, Hpushed, Hfst.
  set (frames := fst (split_frames L (concat chunks))) in *.
  rewrite Hfst in Hbuf. rewrite Hpushed, Hfst.
  cbn [buffer byteCount set_buffer] in *.
  destruct (result (feed s0 frames)) eqn:Er; try discriminate.
  injection Hbuf as <-.
  destruct (@feed_byteCount _ _ L frames s0
              (split_frames_length HL (concat chunks)))
    as [Hcount Hlen]; [eauto|].
  pose proof (split_frames_count HL (concat chunks)) as Hframes.
  pose proof (split_frames_concat HL (concat chunks)) as Hcat.
  pose proof (split_frames_remaining HL (concat chunks)) as [Hle Hne].
  apply (f_equal (@length _)) in Hcat.
  rewrite length_app,
    (concat_length_uniform (split_frames_length HL (concat chunks))) in Hcat.
  fold frames in Hframes, Hcat. fold n in Hframes, Hcat.
  change (@length (list byte) frames) with (@length Buffer frames) in Hcat.
  rewrite Hframes in Hcat.
  rewrite Hlen, Hcount, Hbc, Hframes.
  repeat split; try lia.
  intros Hn.
  destruct (snd (split_frames L (concat chunks))) as [|x rem] eqn:E;
    [|simpl; lia].
  exfalso. apply Hne; [|reflexivity].
  intros Hnil. unfold n in Hn. rewrite Hnil in Hn. simpl in Hn. lia.
Qed.

(** (X9) The state flag of an event says whether a segment is open after it,
    and while one is open the emitted startTime is the time of the frame that
    opened it.  No event both starts and ends a segment. *)
Theorem state_is_open_segment (o : Options.t) s0 chunks
  (before later : list FrameEvent) ev :
  VADStream_new o = Return s0 ->
  snd (writes s0 chunks) = before ++ ev :: later ->
  (speech_state (speech ev) = true ->
   open_segment (before ++ [ev]) = Some (speech_startTime (speech ev)))
  /\ (speech_state (speech ev) = false ->
      open_segment (before ++ [ev]) = None)
  /\ (speech_start (speech ev) && speech_end (speech ev) = false).
Proof.
  intros Hnew Hevs.
  destruct (event_context o chunks before later ev Hnew Hevs)
    as (s & frame & Ht & Hin).
  pose proof (tracks_step s frame ev before Ht Hin) as Ht'.
  destruct (_processAudio_event s frame ev Hin)
    as (_ & _ & Hstate & _ & Hstart & Hend & Hmid).
  unfold tracks in Ht'.
  assert (Hst : speech_state (speech ev) = true ->
                startTime (final (_processAudio s frame))
                = speech_startTime (speech ev)).
  { intros H1.
    destruct (speech_start (speech ev)) eqn:Es.
    - destruct (Hstart eq_refl) as (_ & _ & _ & H2 & H3). congruence.
    - destruct (speech_end (speech ev)) eqn:Ee.
      + destruct (Hend eq_refl) as (_ & H2 & _). congruence.
      + destruct (Hmid eq_refl eq_refl) as (_ & H2 & H3). congruence. }
  split; [|split].
  - intros H1.
    destruct (open_segment (before ++ [ev])) as [t|];
      destruct Ht' as [Ht1 Ht2]; [|congruence].
    f_equal. rewrite <- Ht2. now apply Hst.
  - intros H1.
    destruct (open_segment (before ++ [ev])) as [t|];
      destruct Ht' as [Ht1 Ht2]; [congruence|reflexivity].
  - destruct (speech_start (speech ev)) eqn:Es; [|reflexivity].
    destruct (Hstart eq_refl) as (_ & _ & H & _). exact H.
Qed.

(** (X10) What a classification does to the machine.  A VOICE frame always
    gives an event with state true and end false; it starts a segment exactly
    when none was open, and it becomes the last speech time.  A SILENCE or
    NOISE frame, the two alike, never starts a segment and leaves the last
    speech time alone; it ends the open segment exactly when the frame's time
    minus the last speech time is greater than the debounce time. *)
Theorem classification_to_event s frame (event : Event) :
  classification s frame = Some event ->
  event <> ERROR ->
  let s' := final (_processAudio s frame) in
  let silent_for := (frame_time s - lastSpeech s)%float in
  exists sp,
    _processAudio s frame
    = {| final := s';
         pushed := [ {| time := frame_time s; audioData := frame;
                        speech := sp |} ];
         result := Fulfilled tt |}
    /\ (event = VOICE ->
        speech_state sp = true /\ speech_end sp = false
        /\ speech_start sp = negb (state s)
        /\ lastSpeech s' = frame_time s)
    /\ (event <> VOICE ->
        speech_start sp = false
        /\ speech_end sp = state s && Num.gtb silent_for (debounceTime s)
        /\ speech_state sp
           = state s && negb (Num.gtb silent_for (debounceTime s))
        /\ lastSpeech s' = lastSpeech s).
Proof.
  unfold frame_time, classification, _processAudio.
  destruct s as [v freq deb tm cl bc speaking st ls bf]. stream_simpl.
  destruct (processAudio v frame freq JSUndefined) as [[v' e]|e];
    [|discriminate].
  intros [= ->] Hne.
  destruct event; try contradiction; stream_simpl;
    destruct speaking; stream_simpl;
    try destruct (Num.gtb _ _); stream_simpl;
    eexists; (split; [reflexivity|]);
    split; intros H; try discriminate; try contradiction;
    cbn [speech_state speech_start speech_end]; auto.
Qed.

(** (X11) A write that does not bring the buffered bytes beyond one frame's
    worth pushes nothing: the bytes, exactly one frame of them included, are
    kept for the next write and nothing else changes.  An empty write is the
    case in point. *)
Theorem small_write_is_buffered s (b chunk : Buffer) :
  0 < chunkLengthBytes s ->
  buffer s = Some b ->
  length (b ++ chunk) <= chunkLengthBytes s ->
  _transform s chunk
  = {| final := set_buffer s (Some (b ++ chunk));
       pushed := [];
       result := Fulfilled tt |}.
Proof.
  intros HL Hb Hlen.
  rewrite (_transform_feed s chunk HL Hb).
  now rewrite split_frames_small.
Qed.

(** (X12) How a write to a constructed stream can end, after any writes
    before it.  While the stream holds a buffer the write is fulfilled or is
    rejected with [Error "Error in VAD"]; it never throws and always settles.
    Once the buffer is null the write throws a TypeError and pushes
    nothing. *)
Theorem write_outcomes (o : Options.t) s0 chunks chunk :
  VADStream_new o = Return s0 ->
  let s := fst (writes s0 chunks) in
  match buffer s with
  | Some _ =>
      result (_transform s chunk) = Fulfilled tt
      \/ result (_transform s chunk) = Rejected (Error "Error in VAD")
  | None =>
      (exists msg, result (_transform s chunk) = Thrown (TypeError msg))
      /\ pushed (_transform s chunk) = []
  end.
Proof.
  intros Hnew s.
  destruct (writes_events o chunks Hnew) as ([HL He] & _ & _ & Hfst).
  assert (HLs : chunkLengthBytes s = chunkLengthBytes s0).
  { subst s. rewrite Hfst. unfold chunkLengthBytes.
    cbn [chunkLength set_buffer]. apply feed_chunkLengthBytes. }
  destruct (buffer s) as [b|] eqn:Hb.
  - rewrite (_transform_feed s chunk ltac:(now rewrite HLs) Hb).
    rewrite HLs.
    set (frames := fst (split_frames (chunkLengthBytes s0) (b ++ chunk))).
    assert (Heven : Forall (fun frame => Nat.even (length frame) = true)
                      frames) by now apply split_frames_even.
    pose proof (feed_not_thrown s Heven) as Hnt.
    pose proof (feed_not_diverges s frames) as Hnd.
    pose proof (@feed_rejected _ _ s frames) as Hrej.
    destruct (result (feed s frames)) eqn:Er; cbn [result].
    + now left.
    + right. f_equal. now apply Hrej.
    + exfalso. now apply (Hnt e).
    + exfalso. now apply Hnd.
  - unfold _transform. rewrite Hb. cbn [result pushed]. eauto.
Qed.

End StreamExtras.

(** ** A debounce time that is not a number of milliseconds, and the
    classifier's calls *)

Lemma ltb_nan_l (x : float) : PrimFloat.ltb nan x = false.
Proof.
  rewrite ltb_spec.
  replace (Prim2SF nan) with S754_nan by reflexivity. reflexivity.
Qed.

Section EdgeExtras.

Context {vad_t : Type} {binding : Binding vad_t}.

Implicit Types (s : @VADStream vad_t) (chunk frame : Buffer)
  (frames chunks : list Buffer) (ev : FrameEvent).

Lemma nan_debounce_frame s frame :
  debounceTime s = nan ->
  debounceTime (final (_processAudio s frame)) = nan.
Proof.
  intros H.
  now rewrite (proj1 (proj2 (proj2 (_processAudio_config s frame)))).
Qed.

Lemma nan_debounce_no_end s frame ev :
  debounceTime s = nan ->
  In ev (pushed (_processAudio s frame)) ->
  speech_end (speech ev) = false.
Proof.
  unfold _processAudio.
  destruct s as [v freq deb tm cl bc speaking st ls bf]. stream_simpl.
  intros ->. unfold Num.gtb. rewrite ltb_nan_l, andb_false_r.
  destruct (processAudio v frame freq JSUndefined) as [[v' []]|e];
    stream_simpl; cbn [In]; intros H; try (exfalso; exact H);
    destruct speaking; stream_simpl; destruct H as [<-|[]]; reflexivity.
Qed.

(** (X13) NaN passes the constructor's test on the debounce time, being a
    number that is not less than 0; and a stream built with it never ends a
    segment, since no time is greater than NaN: no event has end true. *)
Theorem nan_debounce_never_ends (o : Options.t) :
  native_ready ->
  Config.mode_in_range (Options.mode o) ->
  Config.rate_listed (Options.audioFrequency o) ->
  Options.debounceTime o = JSNumber nan ->
  exists s0,
    VADStream_new o = Return s0
    /\ forall chunks ev,
         In ev (snd (writes s0 chunks)) -> speech_end (speech ev) = false.
Proof.
  intros Hn Hm Hr Hd.
  destruct (proj2 (VADStream_new_accepts o Hn)) as [s0 Hnew].
  { repeat split; try assumption. right. exists nan.
    split; [assumption|reflexivity]. }
  exists s0. split; [assumption|].
  assert (Hdeb : debounceTime s0 = nan).
  { revert Hnew. unfold VADStream_new. rewrite Hd. cbn [with_default].
    destruct (VAD_new _); cbn [bind]; [|discriminate].
    destruct (with_default (Options.audioFrequency o) (JSNumber 16000));
      try discriminate.
    destruct (negb _); [discriminate|].
    replace (PrimFloat.ltb nan 0) with false by reflexivity.
    now intros [= <-]. }
  intros chunks ev Hin.
  destruct (writes_origin (fun s => debounceTime s = nan)
              nan_debounce_frame (fun s b H => H) chunks s0 Hdeb ev Hin)
    as (s & frame & Hs & Hev).
  now apply (nan_debounce_no_end s frame ev).
Qed.

Lemma feed_classify (frames : list Buffer) : forall s,
  (exists u, result (feed s frames) = Fulfilled u) ->
  vad (final (feed s frames))
  = classify_frames (vad s) (audioFrequency s) frames.
Proof.
  induction frames as [|frame frames IH]; intros s [u Hu];
    cbn [feed classify_frames fold_left final] in *.
  - reflexivity.
  - destruct (result (_processAudio s frame)) eqn:E;
      try (rewrite E in Hu; discriminate).
    cbn [final result] in *.
    rewrite IH
      by (destruct (result (feed (final (_processAudio s frame)) frames));
          try discriminate; eauto).
    rewrite (proj1 (proj2 (_processAudio_config s frame))).
    unfold classify_frames. f_equal.
    revert E. unfold _processAudio.
    destruct s as [v freq deb tm cl bc speaking st ls bf]. stream_simpl.
    destruct (processAudio v frame freq JSUndefined) as [[v' e]|e];
      stream_simpl; [|discriminate].
    destruct e; stream_simpl; try discriminate;
      destruct speaking; stream_simpl;
      try destruct (Num.gtb _ _); reflexivity.
Qed.

(** (X14) The classifier is called once per emitted frame, in order, with the
    stream's sample rate and the default bit depth, each call leaving its
    native state to the next: as long as no write failed, the native state of
    the stream is that of classifying the audio of its events one after the
    other, however the bytes were cut into writes. *)
Theorem classifier_calls_follow_events (o : Options.t) s0 chunks
  (remaining : Buffer) :
  VADStream_new o = Return s0 ->
  buffer (fst (writes s0 chunks)) = Some remaining ->
  vad (fst (writes s0 chunks))
  = classify_frames (vad s0) (audioFrequency s0)
      (map audioData (snd (writes s0 chunks))).
Proof.
  intros Hnew Hbuf.
  destruct (writes_events o chunks Hnew) as (_ & _ & Hpushed & Hfst).
  rewrite Hfst in Hbuf. rewrite Hfst, Hpushed.
  cbn [buffer vad set_buffer] in *.
  destruct (result (feed s0 _)) eqn:Er; try discriminate.
  rewrite feed_audioData by eauto.
  apply feed_classify. eauto.
Qed.

End EdgeExtras.

(** ** The further properties at concrete inputs *)

Module MoreRuns.

Import Demo.

(** Silence, then voice, then ten more bytes, in two writes to the stream at
    8000 Hz with a debounce time of 1000. *)
Definition two_frames : list Buffer := [silence 960 ++ voice 960; voice 10].

Lemma fresh_1000 : VADStream_new (options8000 1000) = Return (fresh 1000).
Proof. vm_compute. reflexivity. Qed.

Lemma two_frames_run :
  writes (fresh 1000) two_frames
  = ({| vad := {| _vad := 2 |};
        audioFrequency := 8000;
        debounceTime := 1000;
        timeMultiplier := 0.0625;
        chunkLength := 960;
        byteCount := 960 * 2;
        state := true;
        startTime := 60;
        lastSpeech := 60;
        buffer := Some (voice 10) |},
     [event 0 (silence 960) false false false 0 0]
       ++ event 60 (voice 960) true true false 60 0 :: []).
Proof. vm_compute. reflexivity. Qed.

Lemma from16toFloatBuffer_samples_witness :
  Nat.even (length [x00; x40; x00; xc0]) = true
  /\ exists floatData,
       from16toFloatBuffer [x00; x40; x00; xc0] = Return floatData
       /\ Buf.readFloatLE floatData (1 * 4)
          = Return (Num.of_Z (sample16 [x00; x40; x00; xc0] 1) / 32768)%float.
Proof.
  split; [reflexivity|].
  destruct (@from16toFloatBuffer_samples [x00; x40; x00; xc0] eq_refl)
    as (floatData & H1 & _ & H2).
  exists floatData. split; [exact H1|].
  apply H2. vm_compute. lia.
Defined.

Lemma from16toFloatBuffer_odd_throws_witness :
  Nat.odd (length [x00; x40; x01]) = true
  /\ exists msg, from16toFloatBuffer [x00; x40; x01] = Throw (RangeError msg).
Proof.
  split; [reflexivity|].
  exact (@from16toFloatBuffer_odd_throws [x00; x40; x01] eq_refl).
Defined.

Lemma from32toFloatBuffer_layout_witness :
  length [x00; x00; x80; x3f] mod 4 = 0
  /\ (forall k, k < length [x00; x00; x80; x3f] / 4 ->
        PrimFloat.is_nan (float32_at [x00; x00; x80; x3f] k) = false)
  /\ exists floatData,
       from32toFloatBuffer [x00; x00; x80; x3f] = Return floatData
       /\ length floatData = 16.
Proof.
  assert (Hnan : forall k, k < length [x00; x00; x80; x3f] / 4 ->
                   PrimFloat.is_nan (float32_at [x00; x00; x80; x3f] k)
                   = false).
  { intros k Hk. assert (k = 0) as -> by (cbn in Hk; lia). reflexivity. }
  split; [reflexivity|]. split; [exact Hnan|].
  rewrite (@from32toFloatBuffer_layout [x00; x00; x80; x3f] eq_refl Hnan).
  eexists. split; reflexivity.
Defined.

Lemma from32toFloatBuffer_partial_throws_witness :
  length [x00; x00; x80; x3f; x00] mod 4 <> 0
  /\ exists msg,
       from32toFloatBuffer [x00; x00; x80; x3f; x00]
       = Throw (RangeError msg).
Proof.
  assert (H : length [x00; x00; x80; x3f; x00] mod 4 <> 0)
    by (cbn; discriminate).
  split; [exact H|].
  exact (@from32toFloatBuffer_partial_throws [x00; x00; x80; x3f; x00] H).
Defined.

Lemma frame_is_60_ms_witness :
  VADStream_new (options8000 1000) = Return (fresh 1000)
  /\ (timeMultiplier (fresh 1000) * chunkLength (fresh 1000))%float
     = 60%float.
Proof.
  split; [exact fresh_1000|].
  exact (proj1 (proj2 (proj2 (@frame_is_60_ms _ _ _ _ fresh_1000)))).
Defined.

Lemma construction_errors_witness :
  native_ready
  /\ ~ Config.mode_in_range (Options.mode (Options.make JSNull JSNull JSNull))
  /\ VADStream_new (Options.make JSNull JSNull JSNull)
     = Throw (Error "Invalid mode").
Proof.
  assert (Hn : native_ready) by (exists 736, 0, 0; repeat split).
  assert (Hm : ~ Config.mode_in_range
                 (Options.mode (Options.make JSNull JSNull JSNull)))
    by (intros [H|(m & H & _)]; discriminate).
  split; [exact Hn|]. split; [exact Hm|].
  exact (proj1 (@construction_errors _ _
                  (Options.make JSNull JSNull JSNull) Hn) Hm).
Defined.

Lemma event_frame_and_time_witness :
  VADStream_new (options8000 1000) = Return (fresh 1000)
  /\ snd (writes (fresh 1000) two_frames)
     = [event 0 (silence 960) false false false 0 0]
         ++ event 60 (voice 960) true true false 60 0 :: []
  /\ voice 960 = Buf.slice (concat two_frames) (1 * 960) (1 * 960 + 960).
Proof.
  assert (Hevs : snd (writes (fresh 1000) two_frames)
                 = [event 0 (silence 960) false false false 0 0]
                     ++ event 60 (voice 960) true true false 60 0 :: [])
    by (rewrite two_frames_run; reflexivity).
  split; [exact fresh_1000|]. split; [exact Hevs|].
  exact (proj1 (@event_frame_and_time _ _ _ _ _ _ _ _ fresh_1000 Hevs)).
Defined.

Lemma frames_emitted_and_leftover_witness :
  VADStream_new (options8000 1000) = Return (fresh 1000)
  /\ buffer (fst (writes (fresh 1000) two_frames)) = Some (voice 10)
  /\ length (snd (writes (fresh 1000) two_frames))
     = (length (concat two_frames) - 1) / chunkLengthBytes (fresh 1000).
Proof.
  assert (Hbuf : buffer (fst (writes (fresh 1000) two_frames))
                 = Some (voice 10))
    by (rewrite two_frames_run; reflexivity).
  split; [exact fresh_1000|]. split; [exact Hbuf|].
  exact (proj1 (@frames_emitted_and_leftover _ _ _ _ _ _ fresh_1000 Hbuf)).
Defined.

Lemma state_is_open_segment_witness :
  VADStream_new (options8000 1000) = Return (fresh 1000)
  /\ snd (writes (fresh 1000) two_frames)
     = [event 0 (silence 960) false false false 0 0]
         ++ event 60 (voice 960) true true false 60 0 :: []
  /\ open_segment ([event 0 (silence 960) false false false 0 0]
                     ++ [event 60 (voice 960) true true false 60 0])
     = Some 60%float.
Proof.
  assert (Hevs : snd (writes (fresh 1000) two_frames)
                 = [event 0 (silence 960) false false false 0 0]
                     ++ event 60 (voice 960) true true false 60 0 :: [])
    by (rewrite two_frames_run; reflexivity).
  split; [exact fresh_1000|]. split; [exact Hevs|].
  exact (proj1 (@state_is_open_segment _ _ _ _ _ _ _ _ fresh_1000 Hevs)
           eq_refl).
Defined.

Lemma classification_to_event_witness :
  classification (fresh 1000) (voice 960) = Some VOICE
  /\ VOICE <> ERROR
  /\ exists sp,
       pushed (_processAudio (fresh 1000) (voice 960))
       = [ {| time := frame_time (fresh 1000); audioData := voice 960;
              speech := sp |} ]
       /\ speech_state sp = true.
Proof.
  assert (Hc : classification (fresh 1000) (voice 960) = Some VOICE)
    by (vm_compute; reflexivity).
  assert (Hne : VOICE <> ERROR) by discriminate.
  split; [exact Hc|]. split; [exact Hne|].
  destruct (@classification_to_event _ _ _ _ _ Hc Hne) as (sp & H1 & H2 & _).
  exists sp. split.
  - rewrite H1. reflexivity.
  - exact (proj1 (H2 eq_refl)).
Defined.

Lemma small_write_is_buffered_witness :
  0 < chunkLengthBytes (fresh 1000)
  /\ buffer (fresh 1000) = Some []
  /\ length ([] ++ silence 960) <= chunkLengthBytes (fresh 1000)
  /\ pushed (_transform (fresh 1000) (silence 960)) = [].
Proof.
  assert (HL : 0 < chunkLengthBytes (fresh 1000)) by (vm_compute; lia).
  assert (Hb : buffer (fresh 1000) = Some []) by reflexivity.
  assert (Hlen : length ([] ++ silence 960) <= chunkLengthBytes (fresh 1000))
    by (vm_compute; lia).
  repeat (split; [assumption|]).
  rewrite (@small_write_is_buffered _ _ _ _ _ HL Hb Hlen). reflexivity.
Defined.

Lemma write_outcomes_witness :
  VADStream_new (options8000 1000) = Return (fresh 1000)
  /\ (result (_transform (fst (writes (fresh 1000) two_frames)) (voice 10))
      = Fulfilled tt
      \/ result (_transform (fst (writes (fresh 1000) two_frames)) (voice 10))
         = Rejected (Error "Error in VAD")).
Proof.
  split; [exact fresh_1000|].
  pose proof (@write_outcomes _ _ _ _ two_frames (voice 10) fresh_1000) as H.
  cbv zeta in H. rewrite two_frames_run in H. cbn [fst buffer] in H.
  rewrite two_frames_run. exact H.
Defined.

Lemma nan_debounce_never_ends_witness :
  native_ready
  /\ Config.mode_in_range (Options.mode (options8000 nan))
  /\ Config.rate_listed (Options.audioFrequency (options8000 nan))
  /\ Options.debounceTime (options8000 nan) = JSNumber nan
  /\ exists s0, VADStream_new (options8000 nan) = Return s0.
Proof.
  assert (Hn : native_ready) by (exists 736, 0, 0; repeat split).
  assert (Hm : Config.mode_in_range (Options.mode (options8000 nan)))
    by (left; reflexivity).
  assert (Hr : Config.rate_listed (Options.audioFrequency (options8000 nan)))
    by (right; left; reflexivity).
  repeat (split; [assumption|]). split; [reflexivity|].
  destruct (@nan_debounce_never_ends _ _ _ Hn Hm Hr eq_refl) as (s0 & H & _).
  exists s0. exact H.
Defined.

Lemma classifier_calls_follow_events_witness :
  VADStream_new (options8000 1000) = Return (fresh 1000)
  /\ buffer (fst (writes (fresh 1000) two_frames)) = Some (voice 10)
  /\ vad (fst (writes (fresh 1000) two_frames))
     = classify_frames (vad (fresh 1000)) (audioFrequency (fresh 1000))
         (map audioData (snd (writes (fresh 1000) two_frames))).
Proof.
  assert (Hbuf : buffer (fst (writes (fresh 1000) two_frames))
                 = Some (voice 10))
    by (rewrite two_frames_run; reflexivity).
  split; [exact fresh_1000|]. split; [exact Hbuf|].
  exact (@classifier_calls_follow_events _ _ _ _ _ _ fresh_1000 Hbuf).
Defined.

(** Silence, then a frame the classifier answers ERROR for, then voice and
    one more byte, in one write. *)
Definition failing_write : list Buffer :=
  [silence 960 ++ faulty 960 ++ voice 960 ++ [x00]].

Lemma failing_write_run :
  writes (fresh 1000) failing_write
  = ({| vad := {| _vad := 2 |};
        audioFrequency := 8000;
        debounceTime := 1000;
        timeMultiplier := 0.0625;
        chunkLength := 960;
        byteCount := 960 * 2;
        state := false;
        startTime := 0;
        lastSpeech := 0;
        buffer := None |},
     [event 0 (silence 960) false false false 0 0]).
Proof. vm_compute. reflexivity. Qed.

(** (C7, the claim as written fails) A write of 2881 bytes whose second frame
    is classified ERROR: the stream has pushed the first frame only, its
    buffer is null, and the 960 bytes pushed, followed by any leftover of at
    most a frame, are not the bytes written. *)
Lemma failed_write_drops_bytes :
  VADStream_new (options8000 1000) = Return (fresh 1000)
  /\ buffer (fst (writes (fresh 1000) failing_write)) = None
  /\ concat (map audioData (snd (writes (fresh 1000) failing_write)))
     = silence 960
  /\ length (concat failing_write) = 960 * 3 + 1
  /\ forall remaining : Buffer,
       length remaining <= chunkLengthBytes (fresh 1000) ->
       concat (map audioData (snd (writes (fresh 1000) failing_write)))
         ++ remaining
       <> concat failing_write.
Proof.
  assert (Hlen : length (concat failing_write) = 960 * 3 + 1)
    by (vm_compute; reflexivity).
  rewrite failing_write_run. cbn [fst snd buffer map audioData event concat].
  rewrite app_nil_r.
  split; [exact fresh_1000|]. repeat split; try assumption.
  intros remaining Hrem Heq.
  apply (f_equal (@length _)) in Heq.
  rewrite length_app in Heq.
  assert (Hs : length (silence 960) = 960) by (vm_compute; reflexivity).
  assert (HL : chunkLengthBytes (fresh 1000) = 960)
    by (vm_compute; reflexivity).
  rewrite Hs, Hlen in Heq. rewrite HL in Hrem. lia.
Qed.

End MoreRuns.
